(** * workflow-database: a JSON file-backed document store

    Shallow embedding of [index.js] (class [Database] and its helpers) and
    of its dependency [workflow-data]: the part that [Database] calls
    ([matches], [filter], [update], [erase]) and, of the rest, [readJson],
    [writeJson], [pluck], [pluckUnique] and [pivot]; of the older copies
    that the repository keeps, [filter], [update], [pivot] and
    [sumProperty] of workflow-data and [validatePath] of index.js; followed
    by the properties proved about them.

    Modelling choices, in one place:
    - JavaScript values are the inductive type [value].  Numbers are the
      integers plus [NaN]; fractions, infinities, negative zero and the
      loss of precision of large integers are not modelled.  Strings are
      Rocq strings, sequences of characters with codes below 256.
    - A plain object is the list of its own properties in insertion order,
      without repeated keys ([obj_set] keeps it so).  Properties inherited
      from a prototype (methods, the accessor [__proto__]) are not
      modelled, and neither is the engine's habit of listing integer-like
      keys first; nothing below depends on the order of keys except the
      text written to a file.
    - Arrays and objects are compared by identity in JavaScript.  Every
      operation of [Database] parses the collection afresh, so a nested
      array or object of a stored document is never identical to a value
      handed in by the caller: [strict_equals] and [includes] answer
      [false] on them.  So do [Set] and [Map] in [pluckUnique] and [pivot],
      where the values plucked from different items are taken to be
      different objects when they are objects.
    - Parameters that the source documents as strings and does not check
      (the collection names, the paths of files, the key of [pluck]) are
      strings here; the other arguments (documents, filters, update specs,
      identifiers, the keys of [pivot]), which the code inspects or passes
      on, are arbitrary values.
    - Exceptions are the [Throw] outcome of [result].  The operations of
      [Database] run in the monad [M], which threads a [world]: the files and
      directories on disk, the log of file-system and console events, and
      the source of random bytes.  Input/output failures of the operating
      system (permissions, full disk, a directory that is missing when a
      file is written into it) are not modelled, and the text of
      [error.message] is left open. *)

From Stdlib Require Import ZArith String Ascii List Bool Lia.
From Stdlib Require Import DecimalString DecimalZ DecimalNat.
From stdpp Require Import base gmap strings.
Import ListNotations.

Open Scope string_scope.
Open Scope list_scope.

(** ** Values and exceptions *)

#[warnings="-register-all"]
Inductive value : Type :=
| VUndefined
| VNull
| VBool (b : bool)
| VNum (n : Z)
| VNaN
| VStr (s : string)
| VArr (elems : list value)
| VObj (props : list (string * value)).

Inductive exn : Type :=
| TypeError (msg : string)
| ReferenceError (name : string)
| SyntaxError
| FsError (code : string).

Inductive result (A : Type) : Type :=
| Ok (a : A)
| Throw (e : exn).

Arguments Ok {A} a.
Arguments Throw {A} e.

Definition rbind {A B} (m : result A) (k : A → result B) : result B :=
  match m with
  | Ok a => k a
  | Throw e => Throw e
  end.

Notation "'let?' x := m 'in' k" := (rbind m (fun x => k))
  (at level 10, x name, m at level 100, k at level 200).

(** ** The fragment of the JavaScript runtime that the code uses *)

Definition typeof (v : value) : string :=
  match v with
  | VUndefined => "undefined"
  | VNull | VArr _ | VObj _ => "object"
  | VBool _ => "boolean"
  | VNum _ | VNaN => "number"
  | VStr _ => "string"
  end.

Definition is_null (v : value) : bool :=
  match v with VNull => true | _ => false end.

Definition Array_isArray (v : value) : bool :=
  match v with VArr _ => true | _ => false end.

(** [!v] is [negb (to_boolean v)]: the falsy values are [undefined], [null],
    [false], [0], [NaN] and the empty string. *)
Definition to_boolean (v : value) : bool :=
  match v with
  | VUndefined | VNull | VNaN => false
  | VBool b => b
  | VNum n => negb (n =? 0)%Z
  | VStr s => negb (String.eqb s "")
  | VArr _ | VObj _ => true
  end.

(** [a === b] *)
Definition strict_equals (a b : value) : bool :=
  match a, b with
  | VUndefined, VUndefined => true
  | VNull, VNull => true
  | VBool x, VBool y => Bool.eqb x y
  | VNum x, VNum y => (x =? y)%Z
  | VStr x, VStr y => String.eqb x y
  | _, _ => false
  end.

(** SameValueZero, the comparison of [Array.prototype.includes]: it differs
    from [===] on [NaN] only. *)
Definition same_value_zero (a b : value) : bool :=
  match a, b with
  | VNaN, VNaN => true
  | _, _ => strict_equals a b
  end.

Definition includes (arr x : value) : bool :=
  match arr with
  | VArr l => existsb (fun e => same_value_zero e x) l
  | _ => false
  end.

(** [Number.prototype.toString] on an integer: decimal digits, with a
    leading minus sign for negative numbers. *)
Definition Number_toString (n : Z) : string :=
  NilZero.string_of_int (Z.to_int n).

Definition index_key (i : nat) : string := Number_toString (Z.of_nat i).

Fixpoint own_lookup (k : string) (props : list (string * value)) : option value :=
  match props with
  | [] => None
  | (k', v) :: rest => if String.eqb k' k then Some v else own_lookup k rest
  end.

(** The element of an array stored under the property name [k]: [k] has to be
    the decimal spelling of an index below the length. *)
Definition array_lookup (k : string) (l : list value) : option value :=
  match List.find (fun i => String.eqb (index_key i) k) (seq 0 (length l)) with
  | Some i => nth_error l i
  | None => None
  end.

(** The character of a string stored under the property name [k]. *)
Definition string_lookup (k : string) (s : string) : option value :=
  match List.find (fun i => String.eqb (index_key i) k) (seq 0 (String.length s)) with
  | Some i =>
      match String.get i s with
      | Some c => Some (VStr (String c ""))
      | None => None
      end
  | None => None
  end.

(** [v[k]] for a [v] that is neither [null] nor [undefined]: an own
    property, or [undefined].  What a value inherits from its prototype
    (methods such as [toString]) is not modelled. *)
Definition get_prop (v : value) (k : string) : value :=
  match v with
  | VObj props => default VUndefined (own_lookup k props)
  | VArr l =>
      if String.eqb k "length" then VNum (Z.of_nat (length l))
      else default VUndefined (array_lookup k l)
  | VStr s =>
      if String.eqb k "length" then VNum (Z.of_nat (String.length s))
      else default VUndefined (string_lookup k s)
  | _ => VUndefined
  end.

(** [v[k]]: reading a property of [null] or [undefined] throws. *)
Definition get (v : value) (k : string) : result value :=
  match v with
  | VUndefined | VNull =>
      Throw (TypeError "Cannot read properties of null or undefined")
  | _ => Ok (get_prop v k)
  end.

(** The names of the own enumerable properties of a value, in order: the
    keys of an object, the indices of an array or of a string, nothing for
    the other primitives. *)
Definition own_keys (v : value) : list string :=
  match v with
  | VObj props => List.map fst props
  | VArr l => List.map index_key (seq 0 (length l))
  | VStr s => List.map index_key (seq 0 (String.length s))
  | _ => []
  end.

(** [Object.keys(v)]: [null] and [undefined] cannot be converted to an
    object. *)
Definition Object_keys (v : value) : result (list string) :=
  match v with
  | VUndefined | VNull =>
      Throw (TypeError "Cannot convert undefined or null to object")
  | _ => Ok (own_keys v)
  end.

(** [obj[k] = v] on the property list of a plain object: an existing property
    keeps its place, a new one goes to the end. *)
Fixpoint obj_set (k : string) (v : value) (props : list (string * value))
  : list (string * value) :=
  match props with
  | [] => [(k, v)]
  | (k', v') :: rest =>
      if String.eqb k' k then (k, v) :: rest else (k', v') :: obj_set k v rest
  end.

(** [Object.assign(target, source)]: every own enumerable property of
    [source] is written to [target].  Documents are plain objects; assigning
    to a stored element of another kind (an array or a primitive, which
    [insertOne] and [insertMany] never store) is left out of the model and
    returns the element as it is. *)
Definition Object_assign (target source : value) : result value :=
  match target with
  | VUndefined | VNull =>
      Throw (TypeError "Cannot convert undefined or null to object")
  | VObj props =>
      Ok (VObj (fold_left (fun acc k => obj_set k (get_prop source k) acc)
                          (own_keys source) props))
  | other => Ok other
  end.

(** [Array.prototype.every], [filter] and [forEach] with a callback that may
    throw; [every] stops at the first [false]. *)
Fixpoint Array_every {A} (f : A → result bool) (l : list A) : result bool :=
  match l with
  | [] => Ok true
  | x :: rest =>
      let? b := f x in
      if b then Array_every f rest else Ok false
  end.

Fixpoint Array_filter (f : value → result bool) (l : list value)
  : result (list value) :=
  match l with
  | [] => Ok []
  | x :: rest =>
      let? b := f x in
      let? rest' := Array_filter f rest in
      Ok (if b then x :: rest' else rest')
  end.

(** [forEach] whose callback updates the visited element in place. *)
Fixpoint Array_forEach (f : value → result value) (l : list value)
  : result (list value) :=
  match l with
  | [] => Ok []
  | x :: rest =>
      let? x' := f x in
      let? rest' := Array_forEach f rest in
      Ok (x' :: rest')
  end.

(** [data.splice(i, 1)] *)
Definition splice1 (i : nat) (data : list value) : list value :=
  firstn i data ++ skipn (S i) data.

(** ** node_modules/workflow-data/index.js *)

Module wdata.

Definition matches (obj criteria : value) : result bool :=
  let? keys := Object_keys criteria in
  Array_every
    (fun key =>
       if Array_isArray (get_prop criteria key)
       then let? field := get obj key in
            Ok (includes (get_prop criteria key) field)
       else let? field := get obj key in
            Ok (strict_equals field (get_prop criteria key)))
    keys.

Definition bad_object (v : value) : bool :=
  negb (String.eqb (typeof v) "object") || is_null v.

Definition filter (data filterCriteria : value) : result value :=
  match data with
  | VArr l =>
      if bad_object filterCriteria
      then Throw (TypeError "filter: filter parameter must be a non-null object.")
      else let? kept := Array_filter (fun obj => matches obj filterCriteria) l in
           Ok (VArr kept)
  | _ => Throw (TypeError "filter: data must be an array.")
  end.

(** Returns the array as [update] leaves it. *)
Definition update (data filterCriteria updates : value) : result value :=
  match data with
  | VArr l =>
      if bad_object filterCriteria
      then Throw (TypeError "update: filter parameter must be a non-null object.")
      else if bad_object updates
      then Throw (TypeError "update: updates parameter must be a non-null object.")
      else
        let? l' :=
          Array_forEach
            (fun obj =>
               let? m := matches obj filterCriteria in
               if m then Object_assign obj updates else Ok obj)
            l in
        Ok (VArr l')
  | _ => Throw (TypeError "update: data must be an array.")
  end.

(** The loop [for (let i = data.length - 1; i >= 0; i--)]: [n] is [i + 1]. *)
Fixpoint erase_loop (n : nat) (data : list value) (filterCriteria : value)
  : result (list value) :=
  match n with
  | O => Ok data
  | S i =>
      let? m := matches (nth i data VUndefined) filterCriteria in
      erase_loop i (if m then splice1 i data else data) filterCriteria
  end.

(** Returns the array as [erase] leaves it. *)
Definition erase (data filterCriteria : value) : result value :=
  match data with
  | VArr l =>
      if bad_object filterCriteria
      then Throw (TypeError "erase: filter parameter must be a non-null object.")
      else let? l' := erase_loop (length l) l filterCriteria in
           Ok (VArr l')
  | _ => Throw (TypeError "erase: data must be an array.")
  end.

End wdata.

(** ** The older copy of workflow-data (src/unnamed/part_002)

    Its [filter] spells the test of [matches] out in the callback and
    checks neither argument. *)

Module legacy.

Definition filter (data filter : value) : result value :=
  match data with
  | VArr l =>
      let? kept :=
        Array_filter
          (fun obj =>
             let? keys := Object_keys filter in
             Array_every
               (fun key =>
                  let filterValue := get_prop filter key in
                  if Array_isArray filterValue
                  then let? field := get obj key in
                       Ok (includes filterValue field)
                  else let? field := get obj key in
                       Ok (strict_equals field filterValue))
               keys)
          l in
      Ok (VArr kept)
  | _ => Throw (TypeError "data.filter is not a function")
  end.

End legacy.


(** ** JSON text

    [JSON_stringify v] is [JSON.stringify(v, null, 2)] and [JSON_parse] is
    [JSON.parse].  Number literals with a fraction or an exponent and
    [\u] escapes of characters above code 255 are outside the modelled
    fragment:
    [JSON_parse] answers [None] on them, as it does on text that is not
    JSON. *)

Definition dquote : ascii := "034"%char.
Definition backslash : ascii := "092"%char.
Definition newline : ascii := "010"%char.

Definition hex_digit (n : N) : ascii :=
  if (n <? 10)%N then ascii_of_N (48 + n) else ascii_of_N (87 + n).

Definition hex_value (c : ascii) : option N :=
  let n := N_of_ascii c in
  if (48 <=? n)%N && (n <=? 57)%N then Some (n - 48)%N
  else if (97 <=? n)%N && (n <=? 102)%N then Some (n - 87)%N
  else if (65 <=? n)%N && (n <=? 70)%N then Some (n - 55)%N
  else None.

(** One character of a quoted string, as QuoteJSONString writes it. *)
Definition escape_char (c : ascii) : string :=
  let n := N_of_ascii c in
  if Ascii.eqb c dquote then String backslash (String dquote "")
  else if Ascii.eqb c backslash then String backslash (String backslash "")
  else if (n =? 8)%N then String backslash "b"
  else if (n =? 9)%N then String backslash "t"
  else if (n =? 10)%N then String backslash "n"
  else if (n =? 12)%N then String backslash "f"
  else if (n =? 13)%N then String backslash "r"
  else if (n <? 32)%N then
    String backslash
      (String "u" (String "0" (String "0"
         (String (hex_digit (n / 16)) (String (hex_digit (n mod 16)) "")))))
  else String c "".

Fixpoint escape (s : string) : string :=
  match s with
  | EmptyString => ""
  | String c rest => escape_char c +:+ escape rest
  end.

Definition QuoteJSONString (s : string) : string :=
  String dquote (escape s +:+ String dquote "").

Definition gap : string := "  ".

Fixpoint join (sep : string) (parts : list string) : string :=
  match parts with
  | [] => ""
  | [p] => p
  | p :: rest => p +:+ sep +:+ join sep rest
  end.

(** The text of an array or object whose parts have been serialized with
    the indentation [indent +:+ gap]. *)
Definition wrap (opening closing : ascii) (indent : string) (parts : list string)
  : string :=
  match parts with
  | [] => String opening (String closing "")
  | _ =>
      String opening
        (String newline
           (indent +:+ gap
            +:+ join (String "," (String newline (indent +:+ gap))) parts
            +:+ String newline (indent +:+ String closing "")))
  end.

Section members.
Variable serialize : value → option string.

(** Properties whose value serializes to [undefined] are left out. *)
Fixpoint serialize_members (props : list (string * value)) : list string :=
  match props with
  | [] => []
  | (k, v) :: rest =>
      match serialize v with
      | Some text =>
          (QuoteJSONString k +:+ ": " +:+ text) :: serialize_members rest
      | None => serialize_members rest
      end
  end.
End members.

(** SerializeJSONProperty; [None] stands for the result [undefined]. *)
Fixpoint serialize (indent : string) (v : value) {struct v} : option string :=
  match v with
  | VUndefined => None
  | VNull => Some "null"
  | VBool true => Some "true"
  | VBool false => Some "false"
  | VNum n => Some (Number_toString n)
  | VNaN => Some "null"
  | VStr s => Some (QuoteJSONString s)
  | VArr l =>
      Some (wrap "[" "]" indent
              (List.map (fun e => default "null" (serialize (indent +:+ gap) e)) l))
  | VObj props =>
      Some (wrap "{" "}" indent
              (serialize_members (serialize (indent +:+ gap)) props))
  end.

Definition JSON_stringify (v : value) : option string := serialize "" v.

Definition is_ws (c : ascii) : bool :=
  let n := N_of_ascii c in
  (n =? 32)%N || (n =? 9)%N || (n =? 10)%N || (n =? 13)%N.

Fixpoint skip_ws (s : string) : string :=
  match s with
  | EmptyString => ""
  | String c rest => if is_ws c then skip_ws rest else s
  end.

Definition is_digit (c : ascii) : bool :=
  let n := N_of_ascii c in (48 <=? n)%N && (n <=? 57)%N.

(** The character after a backslash, other than [u]. *)
Definition unescape (c : ascii) : option ascii :=
  if Ascii.eqb c dquote then Some dquote
  else if Ascii.eqb c backslash then Some backslash
  else if Ascii.eqb c "/" then Some "/"%char
  else if Ascii.eqb c "b" then Some "008"%char
  else if Ascii.eqb c "f" then Some "012"%char
  else if Ascii.eqb c "n" then Some "010"%char
  else if Ascii.eqb c "r" then Some "013"%char
  else if Ascii.eqb c "t" then Some "009"%char
  else None.

Definition hex4 (a b c d : ascii) : option N :=
  match hex_value a, hex_value b, hex_value c, hex_value d with
  | Some x, Some y, Some z, Some w => Some (((x * 16 + y) * 16 + z) * 16 + w)%N
  | _, _, _, _ => None
  end.

Definition cons_char (c : ascii) (r : option (string * string))
  : option (string * string) :=
  match r with
  | Some (s, rest) => Some (String c s, rest)
  | None => None
  end.

(** The characters of a string literal after its opening quote, up to and
    including the closing quote. *)
Fixpoint parse_chars (s : string) : option (string * string) :=
  match s with
  | EmptyString => None
  | String c rest =>
      if Ascii.eqb c dquote then Some ("", rest)
      else if Ascii.eqb c backslash then
        match rest with
        | EmptyString => None
        | String e rest1 =>
            if Ascii.eqb e "u" then
              match rest1 with
              | String h1 (String h2 (String h3 (String h4 rest2))) =>
                  match hex4 h1 h2 h3 h4 with
                  | Some code =>
                      if (code <? 256)%N
                      then cons_char (ascii_of_N code) (parse_chars rest2)
                      else None
                  | None => None
                  end
              | _ => None
              end
            else
              match unescape e with
              | Some c' => cons_char c' (parse_chars rest1)
              | None => None
              end
        end
      else if (N_of_ascii c <? 32)%N then None
      else cons_char c (parse_chars rest)
  end.

Definition digit_of_char (c : ascii) (d : Decimal.uint) : Decimal.uint :=
  match N_of_ascii c with
  | 48%N => Decimal.D0 d | 49%N => Decimal.D1 d | 50%N => Decimal.D2 d
  | 51%N => Decimal.D3 d | 52%N => Decimal.D4 d | 53%N => Decimal.D5 d
  | 54%N => Decimal.D6 d | 55%N => Decimal.D7 d | 56%N => Decimal.D8 d
  | _ => Decimal.D9 d
  end.

(** The longest run of decimal digits at the head of [s]. *)
Fixpoint parse_digits (s : string) : Decimal.uint * string :=
  match s with
  | EmptyString => (Decimal.Nil, "")
  | String c rest =>
      if is_digit c
      then let '(d, rest') := parse_digits rest in (digit_of_char c d, rest')
      else (Decimal.Nil, s)
  end.

(** JSON allows neither an empty run of digits nor a leading zero. *)
Definition well_formed_digits (d : Decimal.uint) : bool :=
  match d with
  | Decimal.Nil => false
  | Decimal.D0 Decimal.Nil => true
  | Decimal.D0 _ => false
  | _ => true
  end.

Definition parse_number (s : string) : option (value * string) :=
  match s with
  | EmptyString => None
  | String c rest =>
      if Ascii.eqb c "-" then
        let '(d, rest') := parse_digits rest in
        if well_formed_digits d
        then Some (VNum (Z.of_int (Decimal.Neg d)), rest') else None
      else
        let '(d, rest') := parse_digits s in
        if well_formed_digits d
        then Some (VNum (Z.of_int (Decimal.Pos d)), rest') else None
  end.

(** [expect lit s] removes the prefix [lit] from [s]. *)
Fixpoint expect (lit s : string) : option string :=
  match lit, s with
  | EmptyString, _ => Some s
  | String a lit', String b s' => if Ascii.eqb a b then expect lit' s' else None
  | String _ _, EmptyString => None
  end.

(** Recursive descent with fuel: every call consumes at least one character,
    so the length of the text is fuel enough ([JSON_parse_fuel]). *)
Fixpoint parse_value (fuel : nat) (s : string) {struct fuel}
  : option (value * string) :=
  match fuel with
  | O => None
  | S fuel' =>
      match s with
      | EmptyString => None
      | String c rest =>
          if Ascii.eqb c "n" then
            match expect "ull" rest with Some r => Some (VNull, r) | None => None end
          else if Ascii.eqb c "t" then
            match expect "rue" rest with Some r => Some (VBool true, r) | None => None end
          else if Ascii.eqb c "f" then
            match expect "alse" rest with Some r => Some (VBool false, r) | None => None end
          else if Ascii.eqb c dquote then
            match parse_chars rest with
            | Some (str, r) => Some (VStr str, r)
            | None => None
            end
          else if Ascii.eqb c "[" then
            match skip_ws rest with
            | String c' r =>
                if Ascii.eqb c' "]" then Some (VArr [], r)
                else
                  match parse_elements fuel' (skip_ws rest) with
                  | Some (l, r') => Some (VArr l, r')
                  | None => None
                  end
            | EmptyString => None
            end
          else if Ascii.eqb c "{" then
            match skip_ws rest with
            | String c' r =>
                if Ascii.eqb c' "}" then Some (VObj [], r)
                else
                  match parse_members fuel' (skip_ws rest) with
                  | Some (members, r') =>
                      Some (VObj (fold_left (fun acc kv => obj_set kv.1 kv.2 acc)
                                            members []), r')
                  | None => None
                  end
            | EmptyString => None
            end
          else parse_number s
      end
  end

(** The elements of a non-empty array, up to and including the bracket. *)
with parse_elements (fuel : nat) (s : string) {struct fuel}
  : option (list value * string) :=
  match fuel with
  | O => None
  | S fuel' =>
      match parse_value fuel' s with
      | Some (v, r) =>
          match skip_ws r with
          | String c r' =>
              if Ascii.eqb c "," then
                match parse_elements fuel' (skip_ws r') with
                | Some (l, r'') => Some (v :: l, r'')
                | None => None
                end
              else if Ascii.eqb c "]" then Some ([v], r')
              else None
          | EmptyString => None
          end
      | None => None
      end
  end

(** The members of a non-empty object, up to and including the brace. *)
with parse_members (fuel : nat) (s : string) {struct fuel}
  : option (list (string * value) * string) :=
  match fuel with
  | O => None
  | S fuel' =>
      match s with
      | String q rest =>
          if Ascii.eqb q dquote then
            match parse_chars rest with
            | Some (k, r) =>
                match skip_ws r with
                | String colon r1 =>
                    if Ascii.eqb colon ":" then
                      match parse_value fuel' (skip_ws r1) with
                      | Some (v, r2) =>
                          match skip_ws r2 with
                          | String c r3 =>
                              if Ascii.eqb c "," then
                                match parse_members fuel' (skip_ws r3) with
                                | Some (l, r4) => Some ((k, v) :: l, r4)
                                | None => None
                                end
                              else if Ascii.eqb c "}" then Some ([(k, v)], r3)
                              else None
                          | EmptyString => None
                          end
                      | None => None
                      end
                    else None
                | EmptyString => None
                end
            | None => None
            end
          else None
      | EmptyString => None
      end
  end.

Definition JSON_parse (text : string) : option value :=
  match parse_value (S (String.length text)) (skip_ws text) with
  | Some (v, rest) =>
      match skip_ws rest with
      | EmptyString => Some v
      | String _ _ => None
      end
  | None => None
  end.

(** ** The world outside: file system, console, random bytes *)

Inductive event : Type :=
| ExistsSync (path : string)
| MkdirSync (path : string)
| ReadFileSync (path : string)
| WriteFileSync (path : string) (text : string)
| ConsoleLog (text : string)
| ConsoleError (text : string).

Definition fs_event (e : event) : bool :=
  match e with
  | ConsoleLog _ | ConsoleError _ => false
  | _ => true
  end.

Record world : Type := World {
  files : gmap string string;     (* regular files: path to text *)
  dirs : gset string;             (* directories *)
  events : list event;            (* oldest first *)
  entropy : nat → Byte.byte;      (* the bytes the random source will give *)
  drawn : nat                     (* how many of them have been taken *)
}.

Definition M (A : Type) : Type := world → result A * world.

Definition ret {A} (a : A) : M A := fun w => (Ok a, w).

Definition throw {A} (e : exn) : M A := fun w => (Throw e, w).

Definition bind {A B} (m : M A) (k : A → M B) : M B :=
  fun w =>
    match m w with
    | (Ok a, w') => k a w'
    | (Throw e, w') => (Throw e, w')
    end.

Definition try_catch {A} (body : M A) (handler : exn → M A) : M A :=
  fun w =>
    match body w with
    | (Ok a, w') => (Ok a, w')
    | (Throw e, w') => handler e w'
    end.

Definition lift {A} (r : result A) : M A := fun w => (r, w).

Notation "'let!' x := m 'in' k" := (bind m (fun x => k))
  (at level 10, x name, m at level 100, k at level 200).

Definition log (e : event) : M unit :=
  fun w => (Ok tt, World (files w) (dirs w) (events w ++ [e]) (entropy w) (drawn w)).

Definition fs_existsSync (path : string) : M bool :=
  let! _ := log (ExistsSync path) in
  fun w =>
    (Ok (match files w !! path with
         | Some _ => true
         | None => bool_decide (path ∈ dirs w)
         end), w).

(** [fs.mkdirSync(path, { recursive: true })] *)
Definition fs_mkdirSync (path : string) : M unit :=
  let! _ := log (MkdirSync path) in
  fun w => (Ok tt, World (files w) ({[path]} ∪ dirs w) (events w) (entropy w) (drawn w)).

Definition fs_readFileSync (path : string) : M string :=
  let! _ := log (ReadFileSync path) in
  fun w =>
    match files w !! path with
    | Some text => (Ok text, w)
    | None =>
        (Throw (FsError (if bool_decide (path ∈ dirs w) then "EISDIR" else "ENOENT")), w)
    end.

Definition fs_writeFileSync (path text : string) : M unit :=
  let! _ := log (WriteFileSync path text) in
  fun w => (Ok tt, World (<[path := text]> (files w)) (dirs w) (events w) (entropy w) (drawn w)).

Definition console_log (text : string) : M unit := log (ConsoleLog text).
Definition console_error (text : string) : M unit := log (ConsoleError text).

(** [crypto.getRandomValues] on a fresh [Uint8Array] of [count] bytes. *)
Definition crypto_getRandomValues (count : nat) : M (list Byte.byte) :=
  fun w =>
    (Ok (List.map (entropy w) (seq (drawn w) count)),
     World (files w) (dirs w) (events w) (entropy w) (drawn w + count)).

(** [path.dirname] of Node's POSIX flavour.  [dirname_scan i cs matched]
    walks the characters at the indices [i], [i - 1], ..., [1], given in
    that order, and finds the slash that ends the directory part. *)
Fixpoint dirname_scan (i : nat) (cs : list ascii) (matchedSlash : bool)
  : option nat :=
  match cs with
  | [] => None
  | c :: rest =>
      if Ascii.eqb c "/" then
        if matchedSlash then dirname_scan (pred i) rest true else Some i
      else dirname_scan (pred i) rest false
  end.

Definition path_dirname (path : string) : string :=
  match path with
  | EmptyString => "."
  | String c0 tail =>
      let hasRoot := Ascii.eqb c0 "/" in
      match dirname_scan (String.length tail)
                         (rev (list_ascii_of_string tail)) true with
      | None => if hasRoot then "/" else "."
      | Some e => if hasRoot && (e =? 1)%nat then "//" else substring 0 e path
      end
  end.

(** ** index.js *)

(** [byte.toString(16)] for a byte: one or two lower-case digits. *)
Definition byte_toString16 (b : Byte.byte) : string :=
  let n := Byte.to_N b in
  if (n <? 16)%N then String (hex_digit n) ""
  else String (hex_digit (n / 16)) (String (hex_digit (n mod 16)) "").

Fixpoint repeat_char (c : ascii) (n : nat) : string :=
  match n with
  | O => ""
  | S n' => String c (repeat_char c n')
  end.

(** [s.padStart(width, c)] with a pad of one character. *)
Definition padStart (width : nat) (c : ascii) (s : string) : string :=
  repeat_char c (width - String.length s) +:+ s.

Definition randomHex (bytes : nat) : M string :=
  let! buffer := crypto_getRandomValues bytes in
  ret (join "" (List.map (fun byte => padStart 2 "0" (byte_toString16 byte)) buffer)).

Definition ensureDirectoryExists (directory : string) : M unit :=
  let! found := fs_existsSync directory in
  if negb found then fs_mkdirSync directory else ret tt.

Definition is_alpha (c : ascii) : bool :=
  let n := N_of_ascii c in
  ((65 <=? n)%N && (n <=? 90)%N) || ((97 <=? n)%N && (n <=? 122)%N).

Fixpoint all_alpha (s : string) : bool :=
  match s with
  | EmptyString => true
  | String c rest => is_alpha c && all_alpha rest
  end.

(** [/^[A-Za-z]+$/.test(str)]: one or more letters and nothing else. *)
Definition validateAlphabetical (str : string) : bool :=
  match str with
  | EmptyString => false
  | String _ _ => all_alpha str
  end.

Definition writeFile (filepath : string) (data : value) : M unit :=
  let! _ := console_log filepath in
  let! _ := ensureDirectoryExists (path_dirname filepath) in
  match JSON_stringify data with
  | Some jsonData => fs_writeFileSync filepath jsonData
  | None => throw (TypeError "The data argument must be of type string")
  end.

Definition readFile (filepath : string) : M value :=
  let! found := fs_existsSync filepath in
  if negb found then ret (VArr [])
  else
    try_catch
      (let! jsonData := fs_readFileSync filepath in
       match JSON_parse jsonData with
       | Some v => ret v
       | None => throw SyntaxError
       end)
      (fun error =>
         let! _ := console_error ("Error reading file " +:+ filepath +:+ ":") in
         ret (VArr [])).

(** [typeof document !== "object" || document === null ||
    Array.isArray(document)] *)
Definition not_plain_object (document : value) : bool :=
  negb (String.eqb (typeof document) "object") || is_null document
  || Array_isArray document.

Definition set_prop (v : value) (k : string) (x : value) : value :=
  match v with
  | VObj props => VObj (obj_set k x props)
  | other => other
  end.

(** The caller's object is changed in place and returned; here the changed
    document is the result. *)
Definition validateDoc (document : value) : M value :=
  if not_plain_object document
  then throw (TypeError "Failed to validate document, received a non-object value.")
  else if negb (to_boolean (get_prop document "_id"))
  then let! id := randomHex 8 in
       ret (set_prop document "_id" (VStr id))
  else ret document.

(** [data.push(document)]: only an array has a [push] to call. *)
Definition Array_push (data document : value) : result value :=
  match data with
  | VArr l => Ok (VArr (l ++ [document]))
  | _ => Throw (TypeError "data.push is not a function")
  end.

(** [array[0]] *)
Definition first (v : value) : value := get_prop v "0".

(** The identifier [CollectionError] is declared nowhere, so evaluating
    [throw CollectionError] raises a [ReferenceError]. *)
Definition CollectionError : exn := ReferenceError "CollectionError is not defined".

Module Database.

Record t : Type := { directory : string }.

Definition constructor (directory : string) : M t :=
  let! _ := ensureDirectoryExists directory in
  ret {| directory := directory |}.

Definition filepath (this : t) (collection : string) : string :=
  directory this +:+ "/" +:+ collection +:+ ".json".

Definition insertOne (this : t) (collection : string) (document : value)
  : M value :=
  if negb (validateAlphabetical collection) then throw CollectionError
  else if not_plain_object document
  then throw (TypeError
         "Expected an object for 'document', but received a non-object value.")
  else
    let! document := validateDoc document in
    let! data := readFile (filepath this collection) in
    let! data := lift (Array_push data document) in
    let! _ := writeFile (filepath this collection) data in
    ret VUndefined.

(** The loop [for (let document of docs)] of [insertMany].  The elements
    of [docs] are taken to be distinct objects. *)
Fixpoint insertMany_loop (docs : list value) (data : value) : M value :=
  match docs with
  | [] => ret data
  | document :: rest =>
      let! document := validateDoc document in
      let! data := lift (Array_push data document) in
      insertMany_loop rest data
  end.

Definition insertMany (this : t) (collection : string) (docs : value)
  : M value :=
  if negb (validateAlphabetical collection) then throw CollectionError
  else
    match docs with
    | VArr l =>
        if negb (forallb (fun document =>
                            String.eqb (typeof document) "object"
                            && negb (is_null document)) l)
        then throw (TypeError "Expected an array of objects for 'docs'.")
        else
          let! data := readFile (filepath this collection) in
          let! data := insertMany_loop l data in
          let! _ := writeFile (filepath this collection) data in
          ret VUndefined
    | _ => throw (TypeError "Expected an array of objects for 'docs'.")
    end.

Definition findById (this : t) (collection : string) (_id : value) : M value :=
  if negb (validateAlphabetical collection) then throw CollectionError
  else
    let! data := readFile (filepath this collection) in
    let! found := lift (wdata.filter data (VObj [("_id", _id)])) in
    ret (first found).

Definition findMany (this : t) (collection : string) (filter : value) : M value :=
  if negb (validateAlphabetical collection) then throw CollectionError
  else
    let! data := readFile (filepath this collection) in
    lift (wdata.filter data filter).

Definition findOne (this : t) (collection : string) (filter : value) : M value :=
  if negb (validateAlphabetical collection) then throw CollectionError
  else
    let! data := readFile (filepath this collection) in
    let! found := lift (wdata.filter data filter) in
    ret (first found).

Definition updateById (this : t) (collection : string) (_id updates : value)
  : M value :=
  if negb (validateAlphabetical collection) then throw CollectionError
  else
    let! data := readFile (filepath this collection) in
    let! data := lift (wdata.update data (VObj [("_id", _id)]) updates) in
    let! _ := writeFile (filepath this collection) data in
    ret VUndefined.

Definition update (this : t) (collection : string) (filter updates : value)
  : M value :=
  if negb (validateAlphabetical collection) then throw CollectionError
  else
    let! data := readFile (filepath this collection) in
    let! data := lift (wdata.update data filter updates) in
    let! _ := writeFile (filepath this collection) data in
    ret VUndefined.

Definition delete (this : t) (collection : string) (filter : value) : M value :=
  if negb (validateAlphabetical collection) then throw CollectionError
  else
    let! data := readFile (filepath this collection) in
    let! data := lift (wdata.erase data filter) in
    let! _ := writeFile (filepath this collection) data in
    ret VUndefined.

Definition deleteById (this : t) (collection : string) (_id : value) : M value :=
  if negb (validateAlphabetical collection) then throw CollectionError
  else
    let! data := readFile (filepath this collection) in
    let! data := lift (wdata.erase data (VObj [("_id", _id)])) in
    let! _ := writeFile (filepath this collection) data in
    ret VUndefined.

End Database.

(** ** Calls of the public operations *)

Inductive call : Type :=
| InsertOne (collection : string) (document : value)
| InsertMany (collection : string) (docs : value)
| FindById (collection : string) (_id : value)
| FindMany (collection : string) (filter : value)
| FindOne (collection : string) (filter : value)
| UpdateById (collection : string) (_id updates : value)
| Update (collection : string) (filter updates : value)
| Delete (collection : string) (filter : value)
| DeleteById (collection : string) (_id : value).

Definition collection_of (c : call) : string :=
  match c with
  | InsertOne n _ | InsertMany n _ | FindById n _ | FindMany n _ | FindOne n _
  | UpdateById n _ _ | Update n _ _ | Delete n _ | DeleteById n _ => n
  end.

Definition perform (this : Database.t) (c : call) : M value :=
  match c with
  | InsertOne n d => Database.insertOne this n d
  | InsertMany n ds => Database.insertMany this n ds
  | FindById n i => Database.findById this n i
  | FindMany n f => Database.findMany this n f
  | FindOne n f => Database.findOne this n f
  | UpdateById n i u => Database.updateById this n i u
  | Update n f u => Database.update this n f u
  | Delete n f => Database.delete this n f
  | DeleteById n i => Database.deleteById this n i
  end.

(** ** More of the JavaScript runtime: conversions, addition, [Set] and [Map] *)

(** [String(v)], the conversion that also turns a value into a property
    name: an array is the list of its elements separated by commas, with
    nothing for [null] and [undefined]; a plain object is
    [[object Object]]. *)
Fixpoint to_string (v : value) : string :=
  match v with
  | VUndefined => "undefined"
  | VNull => "null"
  | VBool true => "true"
  | VBool false => "false"
  | VNum n => Number_toString n
  | VNaN => "NaN"
  | VStr s => s
  | VArr l =>
      join "," (List.map (fun e => match e with
                                   | VUndefined | VNull => ""
                                   | _ => to_string e
                                   end) l)
  | VObj _ => "[object Object]"
  end.

(** ToPrimitive: an array or a plain object becomes its string. *)
Definition to_primitive (v : value) : value :=
  match v with
  | VArr _ | VObj _ => VStr (to_string v)
  | _ => v
  end.

(** ToNumber of a primitive value that is not a string; [None] is [NaN]. *)
Definition number_of (v : value) : option Z :=
  match v with
  | VNull => Some 0%Z
  | VBool b => Some (if b then 1 else 0)%Z
  | VNum n => Some n
  | _ => None
  end.

(** [a + b]: concatenation as soon as one side is a string, or an array or
    object, which turn into strings; addition of numbers otherwise. *)
Definition js_add (a b : value) : value :=
  match to_primitive a, to_primitive b with
  | VStr s, pb => VStr (s +:+ to_string pb)
  | pa, VStr s => VStr (to_string pa +:+ s)
  | pa, pb =>
      match number_of pa, number_of pb with
      | Some x, Some y => VNum (x + y)
      | _, _ => VNaN
      end
  end.

(** [a || b] *)
Definition or_else (a b : value) : value := if to_boolean a then a else b.




(** A [Map] is the list of its entries in the order of insertion, with keys
    compared by SameValueZero. *)
Definition Map_has (k : value) (m : list (value * value)) : bool :=
  existsb (fun entry => same_value_zero entry.1 k) m.

(** The map after [const row = map.get(k)] and a change made to [row] in
    place: the row is an object that the map holds. *)
Fixpoint Map_change (k : value) (change : value → value) (m : list (value * value))
  : list (value * value) :=
  match m with
  | [] => []
  | (k', row) :: rest =>
      if same_value_zero k' k then (k', change row) :: rest
      else (k', row) :: Map_change k change rest
  end.

(** ** node_modules/workflow-data/index.js: the functions that [Database]
    does not call

    [readJson], [writeJson], [pluck], [pluckUnique] and [pivot]. *)

Module workflow_data.



(** The callback of [data.forEach] in [pivot], for the items from index
    [idx] on; [map] holds the rows made so far.  A row that is not in the
    map yet is put there as [{ [rowKey]: rowVal }], and the row of [rowVal]
    then gets [row[colVal] = (row[colVal] || 0) + value]. *)
Fixpoint pivot_loop (rowKey colKey valueKey : string) (items : list value)
    (idx : nat) (map : list (value * value)) : result (list (value * value)) :=
  match items with
  | [] => Ok map
  | item :: rest =>
      if negb (String.eqb (typeof item) "object") || is_null item
      then Throw (TypeError ("pivot: item at index " +:+ index_key idx
                             +:+ " is not a valid object."))
      else
        let rowVal := get_prop item rowKey in
        let colVal := get_prop item colKey in
        let value := get_prop item valueKey in
        if negb (String.eqb (typeof value) "number")
        then Throw (TypeError ("pivot: value for key "
                               +:+ String dquote (valueKey +:+ String dquote "")
                               +:+ " in item at index " +:+ index_key idx
                               +:+ " should be a number."))
        else
          let change row :=
            set_prop row (to_string colVal)
              (js_add (or_else (get_prop row (to_string colVal)) (VNum 0)) value) in
          pivot_loop rowKey colKey valueKey rest (S idx)
            (if Map_has rowVal map
             then Map_change rowVal change map
             else map ++ [(rowVal, change (VObj [(rowKey, rowVal)]))])
  end.

Definition pivot (data rowKey colKey valueKey : value) : result value :=
  match data with
  | VArr l =>
      match rowKey, colKey, valueKey with
      | VStr rowKey, VStr colKey, VStr valueKey =>
          let? map := pivot_loop rowKey colKey valueKey l 0 [] in
          Ok (VArr (List.map snd map))
      | _, _, _ =>
          Throw (TypeError "pivot: rowKey, colKey, and valueKey must be strings.")
      end
  | _ => Throw (TypeError "pivot: data must be an array.")
  end.

Section messages.

(** [error.message]: the text of an error, which the exceptions of the
    model do not carry and the statements leave open. *)
Variable message : exn → string.



End messages.

End workflow_data.

(** ** The older copy of workflow-data (src/unnamed/part_002): [update],
    [pivot] and [sumProperty]

    Like its [filter], they check none of their arguments.  The file is a
    CommonJS module in sloppy mode: assigning to a property of a number, a
    string or a boolean does nothing. *)

Module older.

(** [Object.entries(updates).forEach(([key, value]) => { obj[key] = value; })];
    as for [Object_assign], only plain objects are changed. *)
Definition set_entries (obj updates : value) : result value :=
  let? keys := Object_keys updates in
  match keys with
  | [] => Ok obj
  | _ :: _ =>
      match obj with
      | VUndefined | VNull =>
          Throw (TypeError "Cannot set properties of null or undefined")
      | VObj props =>
          Ok (VObj (fold_left (fun acc k => obj_set k (get_prop updates k) acc)
                              keys props))
      | other => Ok other
      end
  end.

(** Returns the array as [update] leaves it. *)
Definition update (data filter updates : value) : result value :=
  match data with
  | VArr l =>
      let? l' :=
        Array_forEach
          (fun obj =>
             let? keys := Object_keys filter in
             let? m :=
               Array_every
                 (fun key =>
                    let filterValue := get_prop filter key in
                    if Array_isArray filterValue
                    then let? field := get obj key in
                         Ok (includes filterValue field)
                    else let? field := get obj key in
                         Ok (strict_equals field filterValue))
                 keys in
             if m then set_entries obj updates else Ok obj)
          l in
      Ok (VArr l')
  | _ => Throw (TypeError "data.forEach is not a function")
  end.

(** The callback of [data.forEach] in [pivot]: the three keys are whatever
    the caller gave, turned into property names, and the value is added or
    concatenated as [+] does. *)
Fixpoint pivot_loop (rowKey colKey valueKey : value) (items : list value)
    (map : list (value * value)) : result (list (value * value)) :=
  match items with
  | [] => Ok map
  | item :: rest =>
      let? rowVal := get item (to_string rowKey) in
      let? colVal := get item (to_string colKey) in
      let? value := get item (to_string valueKey) in
      let change row :=
        set_prop row (to_string colVal)
          (js_add (or_else (get_prop row (to_string colVal)) (VNum 0)) value) in
      pivot_loop rowKey colKey valueKey rest
        (if Map_has rowVal map
         then Map_change rowVal change map
         else map ++ [(rowVal, change (VObj [(to_string rowKey, rowVal)]))])
  end.

Definition pivot (data rowKey colKey valueKey : value) : result value :=
  match data with
  | VArr l =>
      let? map := pivot_loop rowKey colKey valueKey l [] in
      Ok (VArr (List.map snd map))
  | _ => Throw (TypeError "data.forEach is not a function")
  end.



End older.

(** ** The older copy of index.js (src/unnamed/part_004): [validatePath]

    The check of collection names that [validateAlphabetical] has
    replaced. *)







(** ** Notions used in the statements *)

(** What [readFile] returns for [path] in the world [w] ([readFile_stored]). *)
Definition stored (w : world) (path : string) : value :=
  match files w !! path with
  | Some text => default (VArr []) (JSON_parse text)
  | None => VArr []
  end.

Definition is_plain_object (v : value) : bool :=
  match v with VObj _ => true | _ => false end.

Fixpoint distinct (keys : list string) : bool :=
  match keys with
  | [] => true
  | k :: rest => negb (existsb (String.eqb k) rest) && distinct rest
  end.

(** The values that JSON text can carry: no [undefined], no [NaN], and
    objects whose property names are pairwise different. *)
Fixpoint json_representable (v : value) : bool :=
  match v with
  | VUndefined | VNaN => false
  | VNull | VBool _ | VNum _ | VStr _ => true
  | VArr l => forallb json_representable l
  | VObj props =>
      distinct (List.map fst props)
      && forallb (fun kv => json_representable kv.2) props
  end.


(** [wdata.matches] as a total predicate; on documents it never throws
    ([matches_plain_object]). *)
Definition matchesb (criteria obj : value) : bool :=
  match wdata.matches obj criteria with
  | Ok b => b
  | Throw _ => false
  end.


(** The filter [{ _id }] built by the [...ById] operations. *)
Definition by_id (_id : value) : value := VObj [("_id", _id)].

Definition id_of (doc : value) : value := get_prop doc "_id".

(** The matcher in the words of the specification: for every key of the
    filter, a sequence asks for membership and a scalar for equality.
    Membership and equality are those of the language, SameValueZero and
    [===]; [same_value_zero_spec] and [strict_equals_spec] say what they
    mean on the values of this model. *)
Definition member_of (x sequence : value) : Prop :=
  ∃ l e, sequence = VArr l ∧ In e l ∧ same_value_zero e x = true.

Definition key_satisfied (d f : value) (k : string) : Prop :=
  if Array_isArray (get_prop f k)
  then member_of (get_prop d k) (get_prop f k)
  else strict_equals (get_prop d k) (get_prop f k) = true.

Definition spec_matches (d f : value) : Prop :=
  ∀ k, In k (own_keys f) → key_satisfied d f k.


(** Neither [null] nor [undefined]: a value whose properties can be read. *)
Definition readable (v : value) : bool :=
  match v with VUndefined | VNull => false | _ => true end.

(** The test [matches] applies to one key. *)
Definition key_test (d f : value) (k : string) : bool :=
  if Array_isArray (get_prop f k)
  then includes (get_prop f k) (get_prop d k)
  else strict_equals (get_prop d k) (get_prop f k).

(** [Object.assign] on a document, as a total function. *)
Definition assign (updates doc : value) : value :=
  match doc with
  | VObj props =>
      VObj (fold_left (fun acc k => obj_set k (get_prop updates k) acc)
                      (own_keys updates) props)
  | other => other
  end.

Definition hex_char (c : ascii) : bool :=
  let n := N_of_ascii c in
  ((48 <=? n)%N && (n <=? 57)%N) || ((97 <=? n)%N && (n <=? 102)%N).


(** ** The scenario of the test script

    A store rooted at [__tests__/database], and the family of five that the
    script inserts into the collection [fam]. *)

Definition family : list value :=
  [VObj [("name", VStr "Alice"); ("age", VNum 35); ("relation", VStr "mother");
         ("occupation", VStr "Teacher")];
   VObj [("name", VStr "Ben"); ("age", VNum 37); ("relation", VStr "father");
         ("occupation", VStr "Engineer")];
   VObj [("name", VStr "Olivia"); ("age", VNum 10); ("relation", VStr "daughter");
         ("occupation", VStr "Student")];
   VObj [("name", VStr "Liam"); ("age", VNum 7); ("relation", VStr "son");
         ("occupation", VStr "Student")];
   VObj [("name", VStr "Max"); ("age", VNum 4); ("relation", VStr "son");
         ("occupation", VStr "Preschooler")]].

Definition db : Database.t := {| Database.directory := "__tests__/database" |}.

(** An empty disk and some sequence of random bytes. *)
Definition byte_of_nat (i : nat) : Byte.byte :=
  default Byte.x00 (Byte.of_N (N.of_nat ((i * 37 + 11) mod 256))).

Definition empty_world : world := World ∅ ∅ [] byte_of_nat 0.

(** The world after [new Database("__tests__/database")],
    [db.delete("fam", {})] and [db.insertMany("fam", family)]. *)
Definition family_world : world :=
  ((let! db := Database.constructor "__tests__/database" in
    let! _ := Database.delete db "fam" (VObj []) in
    Database.insertMany db "fam" (VArr family)) empty_world).2.

(** The documents of [fam] in that world, with the identifiers they got. *)
Definition family_stored : list value :=
  Eval vm_compute in
    match stored family_world (Database.filepath db "fam") with
    | VArr l => l
    | _ => []
    end.

(** The condition under which [insertMany] rejects [docs] before reading. *)
Definition not_array_of_objects (docs : value) : bool :=
  match docs with
  | VArr l =>
      negb (forallb (fun document =>
                       String.eqb (typeof document) "object"
                       && negb (is_null document)) l)
  | _ => true
  end.

(** The world after [count] random bytes have been drawn. *)
Definition after_drawing (w : world) (count : nat) : world :=
  World (files w) (dirs w) (events w) (entropy w) (drawn w + count).


(** ** Notions used in the proofs about the operations *)

Definition add_events (w : world) (evs : list event) : world :=
  World (files w) (dirs w) (events w ++ evs) (entropy w) (drawn w).

(** The events of one call of [readFile]. *)
Definition readFile_events (w : world) (path : string) : list event :=
  let failed :=
    [ExistsSync path; ReadFileSync path;
     ConsoleError ("Error reading file " +:+ path +:+ ":")] in
  match files w !! path with
  | Some text =>
      match JSON_parse text with
      | Some _ => [ExistsSync path; ReadFileSync path]
      | None => failed
      end
  | None => if bool_decide (path ∈ dirs w) then failed else [ExistsSync path]
  end.

Definition known_path (w : world) (path : string) : bool :=
  match files w !! path with
  | Some _ => true
  | None => bool_decide (path ∈ dirs w)
  end.

(** The world after [writeFile path data], where [text] is the JSON text of
    [data]. *)
Definition writeFile_world (w : world) (path text : string) : world :=
  let dir := path_dirname path in
  World (<[path := text]> (files w))
        (if known_path w dir then dirs w else {[dir]} ∪ dirs w)
        (events w
         ++ [ConsoleLog path; ExistsSync dir]
         ++ (if known_path w dir then [] else [MkdirSync dir])
         ++ [WriteFileSync path text])
        (entropy w) (drawn w).

(** The shape shared by [updateById], [update], [delete] and [deleteById]:
    load, change in memory, save. *)
Definition read_modify_write (path : string) (change : value → result value)
  : M value :=
  let! data := readFile path in
  let! data := lift (change data) in
  let! _ := writeFile path data in
  ret VUndefined.

(** A result whose exception, if any, is a [TypeError]. *)
Definition only_TypeError {A} (r : result A) : Prop :=
  ∀ e, r = Throw e → ∃ msg, e = TypeError msg.

(** A computation that changes no file, and throws nothing but [TypeError]s. *)
Definition quiet {A} (m : M A) : Prop :=
  ∀ w r w', m w = (r, w') → files w' = files w ∧ only_TypeError r.

(** A computation that, when it throws, throws a [TypeError] and has changed
    no file. *)
Definition safe {A} (m : M A) : Prop :=
  ∀ w e w', m w = (Throw e, w') → files w' = files w ∧ ∃ msg, e = TypeError msg.

Fixpoint all_chars (p : ascii → bool) (s : string) : bool :=
  match s with
  | EmptyString => true
  | String c rest => p c && all_chars p rest
  end.

(** The two digits [randomHex] writes for one byte. *)
Definition hex_of_byte (byte : Byte.byte) : string :=
  padStart 2 "0" (byte_toString16 byte).

(** ** Notions used in the proofs about JSON text *)

(** Lines of text, joined by line feeds, and a quoted word: for writing
    down JSON text. *)
Definition lines (l : list string) : string := join (String newline "") l.

Definition quoted (s : string) : string := String dquote (s +:+ String dquote "").









(** ** Notions used in the statements and proofs about the operations taken
    together *)








Definition is_write (e : event) : bool :=
  match e with WriteFileSync _ _ => true | _ => false end.


Definition set_drawn (w : world) (n : nat) : world :=
  World (files w) (dirs w) (events w) (entropy w) n.

(** The three operations that only read. *)
Definition is_find (c : call) : bool :=
  match c with
  | FindById _ _ | FindMany _ _ | FindOne _ _ => true
  | _ => false
  end.

(** The events that change the disk. *)
Definition changes_disk (e : event) : bool :=
  match e with
  | MkdirSync _ | WriteFileSync _ _ => true
  | _ => false
  end.

(** A computation that makes no directory and writes no file: it leaves the
    world with some events that do not change the disk, and possibly with
    fewer random bytes. *)
Definition tame {A} (m : M A) : Prop :=
  ∀ w r w', m w = (r, w') →
    ∃ evs n, List.filter changes_disk evs = []
             ∧ w' = set_drawn (add_events w evs) n.

(** A tame computation whose result, if any, is a value that
    [JSON.stringify] turns into text: anything but [undefined]. *)
Definition loads_data (m : M value) : Prop :=
  tame m ∧ ∀ w a w', m w = (Ok a, w') → a ≠ VUndefined.

(** The calls [cs] made one after the other from the world [w]; a caller
    that catches the exceptions goes on with the world the call left. *)
Fixpoint run_all (this : Database.t) (cs : list call) (w : world) : world :=
  match cs with
  | [] => w
  | c :: rest => run_all this rest (perform this c w).2
  end.

(** The shape of the operations that change a collection: some loading and
    changing in memory, then saving. *)
Definition save_after (path : string) (prelude : M value) : M value :=
  let! data := prelude in
  let! _ := writeFile path data in
  ret VUndefined.

Definition is_mkdir (e : event) : bool :=
  match e with MkdirSync _ => true | _ => false end.

(** A string without any slash. *)
Definition no_slash (s : string) : bool :=
  all_chars (fun c => negb (Ascii.eqb c "/")) s.

(** The byte that two hexadecimal digits stand for: the inverse of
    [hex_of_byte]. *)
Definition byte_of_hex (s : string) : option Byte.byte :=
  match s with
  | String h (String l "") =>
      match hex_value h, hex_value l with
      | Some x, Some y => Byte.of_N (16 * x + y)
      | _, _ => None
      end
  | _ => None
  end.

(** The bytes that [randomHex bytes] takes from the random source in the
    world [w]. *)
Definition next_bytes (w : world) (bytes : nat) : list Byte.byte :=
  List.map (entropy w) (seq (drawn w) bytes).

(** ** Notions used in the statements and proofs about the rest of
    workflow-data *)

(** An element that [matches] can test against the criteria [f]: reading a
    property of [null] or [undefined] throws, and [matches] reads one as
    soon as [f] has a key. *)
Definition testable (f d : value) : bool :=
  readable d || match own_keys f with [] => true | _ :: _ => false end.

(** A document, [null] or [undefined]. *)
Definition document_or_nothing (d : value) : bool :=
  is_plain_object d || negb (readable d).

(** The items that [pivot] accepts. *)
Definition pivot_item (valueKey : string) (item : value) : bool :=
  String.eqb (typeof item) "object" && negb (is_null item)
  && String.eqb (typeof (get_prop item valueKey)) "number".







(** What one round of the loop of [pivot] does to the map, for an item that
    [pivot] accepts. *)
Definition pivot_step (rowKey colKey valueKey : string)
    (map : list (value * value)) (item : value) : list (value * value) :=
  let change row :=
    set_prop row (to_string (get_prop item colKey))
      (js_add (or_else (get_prop row (to_string (get_prop item colKey))) (VNum 0))
              (get_prop item valueKey)) in
  if Map_has (get_prop item rowKey) map
  then Map_change (get_prop item rowKey) change map
  else map ++ [(get_prop item rowKey, change (VObj [(rowKey, get_prop item rowKey)]))].

(** The two messages of [pivot] about the item at index [idx]. *)
Definition not_an_object (idx : nat) : string :=
  "pivot: item at index " +:+ index_key idx +:+ " is not a valid object.".

Definition not_a_number (valueKey : string) (idx : nat) : string :=
  "pivot: value for key " +:+ String dquote (valueKey +:+ String dquote "")
  +:+ " in item at index " +:+ index_key idx +:+ " should be a number.".




(** * Properties *)

(** ** The matcher and the array functions of workflow-data *)

Lemma get_readable d k : readable d = true → get d k = Ok (get_prop d k).
Proof. destruct d; simpl; intros H; congruence. Qed.


Lemma Array_every_total {A} (g : A → bool) (f : A → result bool) l :
  (∀ x, In x l → f x = Ok (g x)) →
  Array_every f l = Ok (forallb g l).
Proof.
  induction l as [|x l IH]; intros Hf; simpl; [reflexivity|].
  rewrite (Hf x) by (left; reflexivity). simpl.
  destruct (g x); simpl; [|reflexivity].
  apply IH. intros y Hy. apply Hf. right. exact Hy.
Qed.

Lemma Object_keys_readable f : readable f = true → Object_keys f = Ok (own_keys f).
Proof. destruct f; simpl; intros H; congruence. Qed.

Lemma bad_object_readable f : wdata.bad_object f = false → readable f = true.
Proof. destruct f; intros H; try reflexivity; vm_compute in H; congruence. Qed.

Lemma matches_readable d f :
  readable d = true → readable f = true →
  wdata.matches d f = Ok (forallb (key_test d f) (own_keys f)).
Proof.
  intros Hd Hf. unfold wdata.matches. rewrite (Object_keys_readable f Hf). simpl.
  apply Array_every_total.
  intros k _. unfold key_test. rewrite (get_readable d k Hd).
  destruct (Array_isArray (get_prop f k)); reflexivity.
Qed.

Lemma matchesb_readable d f :
  readable d = true → readable f = true →
  matchesb f d = forallb (key_test d f) (own_keys f).
Proof.
  intros Hd Hf. unfold matchesb. rewrite (matches_readable d f Hd Hf). reflexivity.
Qed.

Lemma matches_matchesb d f :
  readable d = true → readable f = true → wdata.matches d f = Ok (matchesb f d).
Proof.
  intros Hd Hf. rewrite (matchesb_readable d f Hd Hf).
  apply matches_readable; assumption.
Qed.

Lemma includes_member x s :
  Array_isArray s = true → (includes s x = true ↔ member_of x s).
Proof.
  destruct s; simpl; try discriminate. intros _. rewrite existsb_exists. split.
  - intros (e & He & Hs). exists elems, e. auto.
  - intros (l & e & Hl & He & Hs). inversion Hl; subst. exists e. auto.
Qed.

Lemma key_test_satisfied d f k : key_test d f k = true ↔ key_satisfied d f k.
Proof.
  unfold key_test, key_satisfied.
  destruct (Array_isArray (get_prop f k)) eqn:E; [|reflexivity].
  apply includes_member, E.
Qed.

Lemma forallb_key_test d f :
  forallb (key_test d f) (own_keys f) = true ↔ spec_matches d f.
Proof.
  rewrite forallb_forall. unfold spec_matches.
  split; intros H k Hk; apply key_test_satisfied, H, Hk.
Qed.

Lemma Array_filter_total (g : value → bool) (f : value → result bool) l :
  (∀ x, In x l → f x = Ok (g x)) →
  Array_filter f l = Ok (List.filter g l).
Proof.
  induction l as [|x l IH]; intros Hf; simpl; [reflexivity|].
  rewrite (Hf x) by (left; reflexivity). simpl.
  rewrite IH by (intros y Hy; apply Hf; right; exact Hy). simpl.
  destruct (g x); reflexivity.
Qed.

Lemma Array_forEach_total (g : value → value) (f : value → result value) l :
  (∀ x, In x l → f x = Ok (g x)) →
  Array_forEach f l = Ok (List.map g l).
Proof.
  induction l as [|x l IH]; intros Hf; simpl; [reflexivity|].
  rewrite (Hf x) by (left; reflexivity). simpl.
  rewrite IH by (intros y Hy; apply Hf; right; exact Hy). reflexivity.
Qed.

Lemma all_readable l x :
  forallb readable l = true → In x l → readable x = true.
Proof. rewrite forallb_forall. auto. Qed.

Lemma filter_readable l f :
  forallb readable l = true → wdata.bad_object f = false →
  wdata.filter (VArr l) f = Ok (VArr (List.filter (matchesb f) l)).
Proof.
  intros Hl Hf. unfold wdata.filter. rewrite Hf.
  rewrite (Array_filter_total (matchesb f)); [reflexivity|].
  intros x Hx. apply matches_matchesb;
    [apply (all_readable l x Hl Hx)|apply bad_object_readable, Hf].
Qed.

(** The loop of [erase], started with [pre] still to visit and [suf] already
    visited, keeps the elements of [pre] that do not match. *)
Lemma erase_loop_spec f pre : ∀ suf,
  readable f = true →
  forallb readable pre = true →
  wdata.erase_loop (length pre) (pre ++ suf) f
  = Ok (List.filter (fun d => negb (matchesb f d)) pre ++ suf).
Proof.
  induction pre as [|x pre IH] using rev_ind; intros suf Hf Hr; [reflexivity|].
  rewrite forallb_app in Hr. apply andb_true_iff in Hr as [Hpre Hx].
  simpl in Hx. rewrite andb_true_r in Hx.
  rewrite length_app, Nat.add_comm. simpl.
  rewrite <- app_assoc. simpl.
  assert (Hn : nth (length pre) (pre ++ x :: suf) VUndefined = x).
  { rewrite app_nth2 by lia. rewrite Nat.sub_diag. reflexivity. }
  rewrite Hn, (matches_matchesb x f Hx Hf). simpl.
  rewrite List.filter_app. simpl.
  destruct (matchesb f x); simpl.
  - assert (Hs : splice1 (length pre) (pre ++ x :: suf) = pre ++ suf).
    { unfold splice1. clear. induction pre as [|y pre IHp]; simpl; [reflexivity|].
      simpl in IHp. rewrite IHp. reflexivity. }
    rewrite Hs, (IH suf Hf Hpre), app_nil_r. reflexivity.
  - rewrite (IH (x :: suf) Hf Hpre), <- app_assoc. reflexivity.
Qed.

Lemma erase_readable l f :
  forallb readable l = true → wdata.bad_object f = false →
  wdata.erase (VArr l) f
  = Ok (VArr (List.filter (fun d => negb (matchesb f d)) l)).
Proof.
  intros Hl Hf. unfold wdata.erase. rewrite Hf.
  pose proof (erase_loop_spec f l [] (bad_object_readable f Hf) Hl) as H.
  rewrite !app_nil_r in H. rewrite H. reflexivity.
Qed.

Lemma Object_assign_readable d u :
  readable d = true → Object_assign d u = Ok (assign u d).
Proof. destruct d; simpl; intros H; congruence. Qed.

Lemma update_readable l f u :
  forallb readable l = true →
  wdata.bad_object f = false → wdata.bad_object u = false →
  wdata.update (VArr l) f u
  = Ok (VArr (List.map (fun d => if matchesb f d then assign u d else d) l)).
Proof.
  intros Hl Hf Hu. unfold wdata.update. rewrite Hf, Hu.
  rewrite (Array_forEach_total (fun d => if matchesb f d then assign u d else d));
    [reflexivity|].
  intros x Hx. pose proof (all_readable l x Hl Hx) as Hrx.
  rewrite (matches_matchesb x f Hrx (bad_object_readable f Hf)). simpl.
  destruct (matchesb f x); [apply Object_assign_readable, Hrx|reflexivity].
Qed.

(** ** JSON text: parsing what [JSON_stringify] wrote *)

Example stringify_nested :
  JSON_stringify
    (VArr [VObj [("name", VStr "Liam"); ("age", VNum 7); ("tags", VArr []);
                 ("gone", VUndefined)];
           VArr [VNum (-2); VNull; VBool true; VNaN; VUndefined; VObj []]])
  = Some (lines ["[";
                 "  {";
                 "    " +:+ quoted "name" +:+ ": " +:+ quoted "Liam" +:+ ",";
                 "    " +:+ quoted "age" +:+ ": 7,";
                 "    " +:+ quoted "tags" +:+ ": []";
                 "  },";
                 "  [";
                 "    -2,";
                 "    null,";
                 "    true,";
                 "    null,";
                 "    null,";
                 "    {}";
                 "  ]";
                 "]"]).
Proof. reflexivity. Qed.

Example stringify_escapes :
  JSON_stringify (VStr (String dquote (String backslash (String newline
                          (String "001" "/")))))
  = Some (quoted (String backslash (String dquote
                   (String backslash (String backslash
                      (String backslash "n\u0001/")))))).
Proof. reflexivity. Qed.

Example parse_compact :
  JSON_parse (" [1, -20 ,[ ] , true, {" +:+ quoted "a" +:+ ":null, "
              +:+ quoted "b" +:+ " : " +:+ quoted "x\u0041\n" +:+ ", "
              +:+ quoted "a" +:+ ": false}] ")
  = Some (VArr [VNum 1; VNum (-20); VArr []; VBool true;
                VObj [("a", VBool false);
                      ("b", VStr ("xA" +:+ String newline ""))]]).
Proof. reflexivity. Qed.

Example parse_rejects :
  List.map JSON_parse
    [""; "[1,]"; "01"; "nul"; "[1 2]"; "{a: 1}"; "-"; "[1] x";
     quoted (String newline "")]
  = [None; None; None; None; None; None; None; None; None].
Proof. reflexivity. Qed.


#[local] Arguments String.append !s1 s2 : simpl nomatch.


Lemma append_empty_r (a : string) : a +:+ "" = a.
Proof. induction a as [|x a IH]; simpl; [reflexivity|]. rewrite IH. reflexivity. Qed.

Lemma length_append (a b : string) :
  String.length (a +:+ b) = String.length a + String.length b.
Proof. induction a as [|x a IH]; simpl; [reflexivity|]. rewrite IH. reflexivity. Qed.






(** *** Numbers *)









(** *** Strings *)




(** *** Values *)
















Lemma obj_set_fresh k v props :
  existsb (String.eqb k) (List.map fst props) = false →
  obj_set k v props = props ++ [(k, v)].
Proof.
  induction props as [|[k' v'] props IH]; simpl; [reflexivity|].
  intros H. apply orb_false_iff in H as [Hk Hrest].
  rewrite String.eqb_sym, Hk, (IH Hrest). reflexivity.
Qed.

Lemma existsb_app_false {A} (p : A → bool) l1 l2 :
  existsb p (l1 ++ l2) = false ↔ existsb p l1 = false ∧ existsb p l2 = false.
Proof. rewrite existsb_app. apply orb_false_iff. Qed.










(** *** What [JSON_parse] returns is representable *)

Lemma obj_set_keys k v props :
  existsb (String.eqb k) (List.map fst props) = true →
  List.map fst (obj_set k v props) = List.map fst props.
Proof.
  induction props as [|[k' v'] props IH]; simpl; [discriminate|].
  rewrite (String.eqb_sym k k').
  destruct (String.eqb k' k) eqn:E; simpl.
  - apply String.eqb_eq in E. subst. reflexivity.
  - intros H. rewrite (IH H). reflexivity.
Qed.

Lemma distinct_snoc keys k :
  distinct keys = true → existsb (String.eqb k) keys = false →
  distinct (keys ++ [k]) = true.
Proof.
  induction keys as [|k' keys IH]; simpl; [reflexivity|].
  intros Hd Hk. apply andb_true_iff in Hd as [Hk' Hd].
  apply orb_false_iff in Hk as [Hkk' Hk].
  rewrite (IH Hd Hk), andb_true_r. apply negb_true_iff.
  apply existsb_app_false. split; [apply negb_true_iff, Hk'|].
  simpl. rewrite String.eqb_sym, Hkk'. reflexivity.
Qed.

Lemma obj_set_distinct k v props :
  distinct (List.map fst props) = true →
  distinct (List.map fst (obj_set k v props)) = true.
Proof.
  intros Hd. destruct (existsb (String.eqb k) (List.map fst props)) eqn:E.
  - rewrite (obj_set_keys k v props E). exact Hd.
  - rewrite (obj_set_fresh k v props E), List.map_app. simpl.
    apply distinct_snoc; assumption.
Qed.

Lemma obj_set_forallb (p : value → bool) k v props :
  p v = true → forallb (fun kv => p kv.2) props = true →
  forallb (fun kv => p kv.2) (obj_set k v props) = true.
Proof.
  intros Hv. induction props as [|[k' v'] props IH]; simpl.
  - intros _. rewrite Hv. reflexivity.
  - intros H. apply andb_true_iff in H as [Hv' Hrest].
    destruct (String.eqb k' k); simpl.
    + rewrite Hv, Hrest. reflexivity.
    + rewrite Hv', (IH Hrest). reflexivity.
Qed.

Lemma fold_obj_set_representable members : ∀ acc,
  json_representable (VObj acc) = true →
  forallb (fun kv => json_representable kv.2) members = true →
  json_representable
    (VObj (fold_left (fun acc kv => obj_set kv.1 kv.2 acc) members acc)) = true.
Proof.
  induction members as [|[k v] members IH]; intros acc Hacc Hm; simpl in *;
    [exact Hacc|].
  apply andb_true_iff in Hm as [Hv Hm].
  apply andb_true_iff in Hacc as [Hd Hvals].
  apply IH; [|exact Hm].
  apply andb_true_iff. split.
  - apply obj_set_distinct, Hd.
  - apply (obj_set_forallb json_representable); assumption.
Qed.

Lemma parse_number_representable s v r :
  parse_number s = Some (v, r) → json_representable v = true.
Proof.
  unfold parse_number. intros H.
  repeat (case_match; simplify_eq); reflexivity.
Qed.

Lemma parse_representable fuel :
  (∀ s v r, parse_value fuel s = Some (v, r) → json_representable v = true)
  ∧ (∀ s l r, parse_elements fuel s = Some (l, r) →
              forallb json_representable l = true)
  ∧ (∀ s m r, parse_members fuel s = Some (m, r) →
              forallb (fun kv => json_representable kv.2) m = true).
Proof.
  induction fuel as [|fuel (IHv & IHe & IHm)];
    [repeat split; intros; discriminate|].
  repeat split.
  - intros s v r H. simpl in H.
    repeat (case_match; simplify_eq); try reflexivity.
    + simpl. eapply IHe. eassumption.
    + apply fold_obj_set_representable; [reflexivity|]. eapply IHm. eassumption.
    + eapply parse_number_representable. eassumption.
  - intros s l r H. simpl in H.
    repeat (case_match; simplify_eq); simpl.
    + apply andb_true_iff. split; [eapply IHv|eapply IHe]; eassumption.
    + rewrite andb_true_r. eapply IHv. eassumption.
  - intros s m r H. simpl in H.
    repeat (case_match; simplify_eq); simpl.
    + apply andb_true_iff. split; [eapply IHv|eapply IHm]; eassumption.
    + rewrite andb_true_r. eapply IHv. eassumption.
Qed.

Lemma JSON_parse_representable text v :
  JSON_parse text = Some v → json_representable v = true.
Proof.
  unfold JSON_parse. intros H.
  repeat (case_match; simplify_eq).
  eapply (proj1 (parse_representable _)). eassumption.
Qed.

(** *** The length of the text is fuel enough *)

Lemma skip_ws_length s : (String.length (skip_ws s) <= String.length s)%nat.
Proof.
  induction s as [|c s IH]; simpl; [lia|].
  destruct (is_ws c); simpl; lia.
Qed.

Lemma expect_length lit : ∀ s r,
  expect lit s = Some r → (String.length r <= String.length s)%nat.
Proof.
  induction lit as [|a lit IH]; intros s r H; simpl in H.
  - injection H as <-. lia.
  - destruct s as [|b s]; [discriminate|].
    destruct (Ascii.eqb a b); [|discriminate].
    apply IH in H. simpl. lia.
Qed.

Lemma cons_char_inv c o str r :
  cons_char c o = Some (str, r) → ∃ str', o = Some (str', r).
Proof.
  destruct o as [[str' r']|]; simpl; [|discriminate].
  intros [= <- <-]. eauto.
Qed.

Lemma parse_chars_length n : ∀ s str r,
  (String.length s <= n)%nat →
  parse_chars s = Some (str, r) → String.length r < String.length s.
Proof.
  induction n as [|n IH]; intros s str r Hn H.
  - destruct s; [discriminate|simpl in Hn; lia].
  - destruct s as [|c s]; [discriminate|]. simpl in Hn. simpl in H.
    repeat (case_match; simplify_eq); simpl in *;
      try lia;
      apply cons_char_inv in H as [str' H];
      apply IH in H; simpl in *; lia.
Qed.

Lemma parse_digits_length s : ∀ d r,
  parse_digits s = (d, r) →
  (String.length r <= String.length s)%nat
  ∧ (d ≠ Decimal.Nil → String.length r < String.length s).
Proof.
  induction s as [|c s IH]; intros d r H; simpl in H.
  - injection H as <- <-. split; [lia|congruence].
  - destruct (is_digit c).
    + destruct (parse_digits s) as [d' r'] eqn:E. injection H as <- <-.
      destruct (IH d' r' eq_refl) as [Hle _]. simpl. split; lia.
    + injection H as <- <-. split; [lia|congruence].
Qed.

Lemma parse_number_length s v r :
  parse_number s = Some (v, r) → String.length r < String.length s.
Proof.
  unfold parse_number. destruct s as [|c s]; [discriminate|].
  destruct (Ascii.eqb c "-").
  - destruct (parse_digits s) as [d r'] eqn:E.
    destruct (well_formed_digits d); [|discriminate]. intros [= <- <-].
    destruct (parse_digits_length s d r' E) as [Hle _]. simpl. lia.
  - destruct (parse_digits (String c s)) as [d r'] eqn:E.
    destruct (well_formed_digits d) eqn:W; [|discriminate]. intros [= <- <-].
    destruct (parse_digits_length _ d r' E) as [_ Hlt].
    apply Hlt. intros ->. discriminate.
Qed.

(** Every successful call consumes at least one character. *)
Lemma parse_consumes fuel :
  (∀ s v r, parse_value fuel s = Some (v, r) →
            String.length r < String.length s)
  ∧ (∀ s l r, parse_elements fuel s = Some (l, r) →
              String.length r < String.length s)
  ∧ (∀ s m r, parse_members fuel s = Some (m, r) →
              String.length r < String.length s).
Proof.
  induction fuel as [|fuel (IHv & IHe & IHm)];
    [repeat split; intros; discriminate|].
  repeat split.
  - intros s v r H. simpl in H.
    repeat (case_match; simplify_eq); simpl;
      repeat match goal with
        | H : expect _ _ = Some _ |- _ => apply expect_length in H
        | H : parse_chars _ = Some _ |- _ =>
            apply (parse_chars_length _ _ _ _ (Nat.le_refl _)) in H
        | H : parse_elements fuel _ = Some _ |- _ => apply IHe in H
        | H : parse_members fuel _ = Some _ |- _ => apply IHm in H
        | H : parse_number _ = Some _ |- _ => apply parse_number_length in H
        | H : skip_ws ?x = String _ _ |- _ =>
            pose proof (skip_ws_length x); rewrite H in *; clear H
        end; simpl in *; lia.
  - intros s l r H. simpl in H.
    repeat (case_match; simplify_eq);
      repeat match goal with
        | H : parse_value fuel _ = Some _ |- _ => apply IHv in H
        | H : parse_elements fuel _ = Some _ |- _ => apply IHe in H
        | H : skip_ws ?x = String _ _ |- _ =>
            pose proof (skip_ws_length x); rewrite H in *; clear H
        end;
      repeat match goal with
        | H : context [skip_ws ?x] |- _ =>
            lazymatch goal with
            | _ : (String.length (skip_ws x) <= _)%nat |- _ => fail
            | _ => pose proof (skip_ws_length x)
            end
        end; simpl in *; lia.
  - intros s m r H. simpl in H.
    repeat (case_match; simplify_eq);
      repeat match goal with
        | H : parse_value fuel _ = Some _ |- _ => apply IHv in H
        | H : parse_members fuel _ = Some _ |- _ => apply IHm in H
        | H : parse_chars _ = Some _ |- _ =>
            apply (parse_chars_length _ _ _ _ (Nat.le_refl _)) in H
        | H : skip_ws ?x = String _ _ |- _ =>
            pose proof (skip_ws_length x); rewrite H in *; clear H
        end;
      repeat match goal with
        | H : context [skip_ws ?x] |- _ =>
            lazymatch goal with
            | _ : (String.length (skip_ws x) <= _)%nat |- _ => fail
            | _ => pose proof (skip_ws_length x)
            end
        end; simpl in *; lia.
Qed.

(** Facts about lengths that follow from the successful calls among the
    hypotheses. *)
Ltac length_facts :=
  repeat match goal with
    | H : parse_value ?f ?s = Some (?v, ?r) |- _ =>
        lazymatch goal with
        | _ : String.length r < String.length s |- _ => fail
        | _ => pose proof (proj1 (parse_consumes f) s v r H)
        end
    | H : parse_elements ?f ?s = Some (?l, ?r) |- _ =>
        lazymatch goal with
        | _ : String.length r < String.length s |- _ => fail
        | _ => pose proof (proj1 (proj2 (parse_consumes f)) s l r H)
        end
    | H : parse_members ?f ?s = Some (?l, ?r) |- _ =>
        lazymatch goal with
        | _ : String.length r < String.length s |- _ => fail
        | _ => pose proof (proj2 (proj2 (parse_consumes f)) s l r H)
        end
    | H : parse_chars ?s = Some (?k, ?r) |- _ =>
        lazymatch goal with
        | _ : String.length r < String.length s |- _ => fail
        | _ => pose proof (parse_chars_length _ s k r (Nat.le_refl _) H)
        end
    | H : skip_ws ?x = String ?c ?r |- _ =>
        lazymatch goal with
        | _ : (String.length (String c r) <= String.length x)%nat |- _ => fail
        | _ => assert (String.length (String c r) <= String.length x)%nat
                 by (rewrite <- H; apply skip_ws_length)
        end
    end;
  repeat match goal with
    | |- context [skip_ws ?x] =>
        lazymatch goal with
        | _ : (String.length (skip_ws x) <= String.length x)%nat |- _ => fail
        | _ => pose proof (skip_ws_length x)
        end
    | _ : context [skip_ws ?x] |- _ =>
        lazymatch goal with
        | _ : (String.length (skip_ws x) <= String.length x)%nat |- _ => fail
        | _ => pose proof (skip_ws_length x)
        end
    end.

Ltac split_matches H :=
  repeat match type of H with
    | context [match ?x with _ => _ end] => destruct x eqn:?; simplify_eq
    | context [if ?x then _ else _] => destruct x eqn:?; simplify_eq
    end.

(** A call that succeeds with some fuel succeeds, with the same result, with
    any fuel that covers the characters it consumed. *)
Lemma parse_fuel fuel :
  (∀ s v r, parse_value fuel s = Some (v, r) →
            ∀ g, (String.length s - String.length r <= g)%nat →
                 parse_value g s = Some (v, r))
  ∧ (∀ s l r, parse_elements fuel s = Some (l, r) →
              ∀ g, (String.length s - String.length r <= g)%nat →
                   parse_elements g s = Some (l, r))
  ∧ (∀ s m r, parse_members fuel s = Some (m, r) →
              ∀ g, (String.length s - String.length r <= g)%nat →
                   parse_members g s = Some (m, r)).
Proof.
  induction fuel as [|fuel (IHv & IHe & IHm)];
    [repeat split; intros; discriminate|].
  repeat split.
  - intros s v r H g Hg.
    pose proof (proj1 (parse_consumes _) s v r H) as Hc.
    destruct g as [|g]; [lia|].
    simpl in H |- *. split_matches H; try reflexivity; try assumption.
    + length_facts.
      match goal with
      | Hx : parse_elements fuel ?t = Some (?l, ?r') |- _ =>
          rewrite (IHe t l r' Hx g) by (simpl in *; lia)
      end. reflexivity.
    + length_facts.
      match goal with
      | Hx : parse_members fuel ?t = Some (?l, ?r') |- _ =>
          rewrite (IHm t l r' Hx g) by (simpl in *; lia)
      end. reflexivity.
  - intros s l r H g Hg.
    pose proof (proj1 (proj2 (parse_consumes _)) s l r H) as Hc.
    destruct g as [|g]; [lia|].
    simpl in H |- *. split_matches H.
    + length_facts.
      match goal with
      | Hx : parse_value fuel ?t = Some (?x, ?r') |- _ =>
          rewrite (IHv t x r' Hx g) by (simpl in *; lia)
      end.
      match goal with
      | Hx : skip_ws _ = _ |- _ => rewrite Hx
      end.
      match goal with
      | Hx : Ascii.eqb _ "," = true |- _ => rewrite Hx
      end.
      match goal with
      | Hx : parse_elements fuel ?t = Some (?x, ?r') |- _ =>
          rewrite (IHe t x r' Hx g) by (simpl in *; lia)
      end. reflexivity.
    + length_facts.
      match goal with
      | Hx : parse_value fuel ?t = Some (?x, ?r') |- _ =>
          rewrite (IHv t x r' Hx g) by (simpl in *; lia)
      end.
      match goal with
      | Hx : skip_ws _ = _ |- _ => rewrite Hx
      end.
      repeat match goal with
      | Hx : Ascii.eqb _ _ = _ |- _ => rewrite Hx; clear Hx
      end. reflexivity.
  - intros s m r H g Hg.
    pose proof (proj2 (proj2 (parse_consumes _)) s m r H) as Hc.
    destruct g as [|g]; [lia|].
    simpl in H |- *. split_matches H.
    + length_facts.
      match goal with
      | Hx : parse_value fuel ?t = Some (?x, ?r') |- _ =>
          rewrite (IHv t x r' Hx g) by (simpl in *; lia)
      end.
      repeat match goal with
      | Hx : skip_ws _ = _ |- _ => rewrite Hx; clear Hx
      | Hx : Ascii.eqb _ _ = _ |- _ => rewrite Hx; clear Hx
      end.
      match goal with
      | Hx : parse_members fuel ?t = Some (?x, ?r') |- _ =>
          rewrite (IHm t x r' Hx g) by (simpl in *; lia)
      end. reflexivity.
    + length_facts.
      match goal with
      | Hx : parse_value fuel ?t = Some (?x, ?r') |- _ =>
          rewrite (IHv t x r' Hx g) by (simpl in *; lia)
      end.
      repeat match goal with
      | Hx : skip_ws _ = _ |- _ => rewrite Hx; clear Hx
      | Hx : Ascii.eqb _ _ = _ |- _ => rewrite Hx; clear Hx
      end. reflexivity.
Qed.

(** [JSON_parse] accepts whatever the parser accepts with any fuel. *)
Theorem JSON_parse_fuel fuel text v rest :
  parse_value fuel (skip_ws text) = Some (v, rest) → skip_ws rest = "" →
  JSON_parse text = Some v.
Proof.
  intros H Hrest. unfold JSON_parse.
  rewrite (proj1 (parse_fuel fuel) _ v rest H).
  - rewrite Hrest. reflexivity.
  - pose proof (skip_ws_length text). lia.
Qed.

(** ** Reading and writing a collection file *)

Lemma bind_ok {A B} (m : M A) (k : A → M B) w a w' :
  m w = (Ok a, w') → bind m k w = k a w'.
Proof. intros H. unfold bind. rewrite H. reflexivity. Qed.

Lemma fs_existsSync_spec path w :
  fs_existsSync path w = (Ok (known_path w path), add_events w [ExistsSync path]).
Proof. reflexivity. Qed.

Lemma readFile_stored path w :
  readFile path w = (Ok (stored w path), add_events w (readFile_events w path)).
Proof.
  unfold readFile.
  rewrite (bind_ok _ _ _ _ _ (fs_existsSync_spec path w)).
  unfold known_path, stored, readFile_events.
  destruct (files w !! path) as [text|] eqn:E; simpl.
  - unfold try_catch, bind, fs_readFileSync, bind, log. simpl. rewrite E.
    destruct (JSON_parse text) as [v|]; simpl; unfold add_events; simpl;
      rewrite <- ?app_assoc; reflexivity.
  - destruct (bool_decide (path ∈ dirs w)) eqn:D; simpl; [|reflexivity].
    unfold try_catch, bind, fs_readFileSync, bind, log. simpl. rewrite E.
    unfold add_events; simpl. rewrite <- ?app_assoc. reflexivity.
Qed.

Lemma ensureDirectoryExists_spec directory w :
  ensureDirectoryExists directory w
  = (Ok tt,
     World (files w)
           (if known_path w directory then dirs w else {[directory]} ∪ dirs w)
           (events w ++ [ExistsSync directory]
            ++ (if known_path w directory then [] else [MkdirSync directory]))
           (entropy w) (drawn w)).
Proof.
  unfold ensureDirectoryExists.
  rewrite (bind_ok _ _ _ _ _ (fs_existsSync_spec directory w)).
  destruct (known_path w directory); simpl; [reflexivity|].
  unfold fs_mkdirSync, bind, log. simpl. rewrite <- app_assoc. reflexivity.
Qed.

Lemma writeFile_ok path data text w :
  JSON_stringify data = Some text →
  writeFile path data w = (Ok tt, writeFile_world w path text).
Proof.
  intros H. unfold writeFile. rewrite H.
  assert (Hlog : console_log path w = (Ok tt, add_events w [ConsoleLog path]))
    by reflexivity.
  rewrite (bind_ok _ _ _ _ _ Hlog).
  rewrite (bind_ok _ _ _ _ _ (ensureDirectoryExists_spec _ _)).
  unfold fs_writeFileSync, bind, log, writeFile_world, add_events, known_path. simpl.
  rewrite <- !app_assoc. reflexivity.
Qed.

Lemma stored_representable w path : json_representable (stored w path) = true.
Proof.
  unfold stored. destruct (files w !! path) as [text|]; [|reflexivity].
  destruct (JSON_parse text) as [v|] eqn:E; [|reflexivity].
  apply (JSON_parse_representable text v E).
Qed.




(** ** The matcher *)




(** [filter] keeps the documents that match, in their order; the older copy
    of the library does the same. *)
Lemma filter_keeps_matching docs f :
  forallb readable docs = true → wdata.bad_object f = false →
  ∃ kept, wdata.filter (VArr docs) f = Ok (VArr kept)
          ∧ kept = List.filter (matchesb f) docs
          ∧ ∀ d, In d kept ↔ In d docs ∧ spec_matches d f.
Proof.
  intros Hdocs Hf. eexists. split; [apply filter_readable; assumption|].
  split; [reflexivity|]. intros d. rewrite filter_In. split.
  - intros [Hd Hm]. split; [exact Hd|].
    rewrite (matchesb_readable d f (all_readable docs d Hdocs Hd)
               (bad_object_readable f Hf)) in Hm.
    apply forallb_key_test, Hm.
  - intros [Hd Hm]. split; [exact Hd|].
    rewrite (matchesb_readable d f (all_readable docs d Hdocs Hd)
               (bad_object_readable f Hf)).
    apply forallb_key_test, Hm.
Qed.

Lemma legacy_filter_agrees data f :
  wdata.bad_object f = false → Array_isArray data = true →
  legacy.filter data f = wdata.filter data f.
Proof.
  intros Hf Hd. destruct data; try discriminate.
  unfold legacy.filter, wdata.filter. rewrite Hf. reflexivity.
Qed.

(** ** Deleting *)

Lemma delete_read_modify_write this collection f :
  validateAlphabetical collection = true →
  Database.delete this collection f
  = read_modify_write (Database.filepath this collection)
      (fun data => wdata.erase data f).
Proof. intros H. unfold Database.delete. rewrite H. reflexivity. Qed.





(** ** Updating *)

Lemma own_lookup_obj_set k k' v props :
  own_lookup k (obj_set k' v props)
  = if String.eqb k' k then Some v else own_lookup k props.
Proof.
  induction props as [|[k0 v0] props IH]; simpl.
  - destruct (String.eqb k' k); reflexivity.
  - destruct (String.eqb k0 k') eqn:E0; simpl.
    + apply String.eqb_eq in E0. subst k0.
      destruct (String.eqb k' k); reflexivity.
    + rewrite IH. destruct (String.eqb k0 k) eqn:E1; [|reflexivity].
      apply String.eqb_eq in E1. subst k0.
      rewrite String.eqb_sym, E0. reflexivity.
Qed.







Lemma update_read_modify_write this collection f u :
  validateAlphabetical collection = true →
  Database.update this collection f u
  = read_modify_write (Database.filepath this collection)
      (fun data => wdata.update data f u).
Proof. intros H. unfold Database.update. rewrite H. reflexivity. Qed.











(** ** Saving and loading *)




(** ** Finding *)

Lemma first_head l : first (VArr l) = default VUndefined (head l).
Proof. destruct l; reflexivity. Qed.

Lemma head_filter {A} (p : A → bool) l : head (List.filter p l) = List.find p l.
Proof.
  induction l as [|x l IH]; simpl; [reflexivity|].
  destruct (p x); [reflexivity|exact IH].
Qed.




(** ** Errors *)

Lemma only_TypeError_Ok {A} (a : A) : only_TypeError (Ok a).
Proof. intros e H. discriminate. Qed.

Lemma only_TypeError_Throw {A} msg : only_TypeError (@Throw A (TypeError msg)).
Proof. intros e H. injection H as <-. eauto. Qed.

Lemma only_TypeError_rbind {A B} (r : result A) (k : A → result B) :
  only_TypeError r → (∀ a, only_TypeError (k a)) → only_TypeError (rbind r k).
Proof.
  intros Hr Hk. destruct r as [a|e]; simpl; [apply Hk|].
  intros e' H. injection H as <-. apply Hr. reflexivity.
Qed.

Create HintDb safety.
#[local] Hint Resolve only_TypeError_Ok only_TypeError_Throw : safety.

Lemma get_only_TypeError v k : only_TypeError (get v k).
Proof. destruct v; simpl; auto with safety. Qed.

Lemma Object_keys_only_TypeError v : only_TypeError (Object_keys v).
Proof. destruct v; simpl; auto with safety. Qed.

Lemma matches_only_TypeError obj criteria :
  only_TypeError (wdata.matches obj criteria).
Proof.
  unfold wdata.matches.
  apply only_TypeError_rbind; [apply Object_keys_only_TypeError|].
  intros keys. induction keys as [|k keys IH]; simpl; [auto with safety|].
  apply only_TypeError_rbind.
  - destruct (Array_isArray _); apply only_TypeError_rbind;
      auto using get_only_TypeError with safety.
  - intros []; auto with safety.
Qed.

Lemma Array_filter_only_TypeError f l :
  (∀ x, only_TypeError (f x)) → only_TypeError (Array_filter f l).
Proof.
  intros Hf. induction l as [|x l IH]; simpl; [auto with safety|].
  apply only_TypeError_rbind; [apply Hf|]. intros b.
  apply only_TypeError_rbind; [apply IH|]. auto with safety.
Qed.

Lemma Array_forEach_only_TypeError f l :
  (∀ x, only_TypeError (f x)) → only_TypeError (Array_forEach f l).
Proof.
  intros Hf. induction l as [|x l IH]; simpl; [auto with safety|].
  apply only_TypeError_rbind; [apply Hf|]. intros b.
  apply only_TypeError_rbind; [apply IH|]. auto with safety.
Qed.

Lemma Object_assign_only_TypeError target source :
  only_TypeError (Object_assign target source).
Proof. destruct target; simpl; auto with safety. Qed.

Lemma erase_loop_only_TypeError f n : ∀ data,
  only_TypeError (wdata.erase_loop n data f).
Proof.
  induction n as [|n IH]; intros data; simpl; [auto with safety|].
  apply only_TypeError_rbind; [apply matches_only_TypeError|].
  intros b. apply IH.
Qed.

Lemma filter_only_TypeError data f : only_TypeError (wdata.filter data f).
Proof.
  unfold wdata.filter. destruct data; auto with safety.
  destruct (wdata.bad_object f); auto with safety.
  apply only_TypeError_rbind; [|auto with safety].
  apply Array_filter_only_TypeError. intros x. apply matches_only_TypeError.
Qed.

Lemma update_only_TypeError data f u : only_TypeError (wdata.update data f u).
Proof.
  unfold wdata.update. destruct data; auto with safety.
  destruct (wdata.bad_object f); auto with safety.
  destruct (wdata.bad_object u); auto with safety.
  apply only_TypeError_rbind; [|auto with safety].
  apply Array_forEach_only_TypeError. intros x.
  apply only_TypeError_rbind; [apply matches_only_TypeError|].
  intros []; [apply Object_assign_only_TypeError|auto with safety].
Qed.

Lemma erase_only_TypeError data f : only_TypeError (wdata.erase data f).
Proof.
  unfold wdata.erase. destruct data; auto with safety.
  destruct (wdata.bad_object f); auto with safety.
  apply only_TypeError_rbind; [|auto with safety].
  apply erase_loop_only_TypeError.
Qed.

Lemma Array_push_only_TypeError data document :
  only_TypeError (Array_push data document).
Proof. destruct data; simpl; auto with safety. Qed.

Lemma quiet_ret {A} (a : A) : quiet (ret a).
Proof. intros w r w' [= <- <-]. split; auto with safety. Qed.

Lemma quiet_lift {A} (r : result A) : only_TypeError r → quiet (lift r).
Proof. intros Hr w r' w' [= <- <-]. split; [reflexivity|exact Hr]. Qed.

Lemma quiet_throw {A} msg : quiet (@throw A (TypeError msg)).
Proof. intros w r w' [= <- <-]. split; auto with safety. Qed.

Lemma quiet_bind {A B} (m : M A) (k : A → M B) :
  quiet m → (∀ a, quiet (k a)) → quiet (bind m k).
Proof.
  intros Hm Hk w r w' H. unfold bind in H.
  destruct (m w) as [[a|e] w1] eqn:E.
  - destruct (Hm _ _ _ E) as [Hf _]. destruct (Hk a _ _ _ H) as [Hf' Hr].
    split; [congruence|exact Hr].
  - injection H as <- <-. destruct (Hm _ _ _ E) as [Hf Hr].
    split; [exact Hf|]. intros e' He. injection He as <-.
    apply Hr. reflexivity.
Qed.

Lemma quiet_safe {A} (m : M A) : quiet m → safe m.
Proof.
  intros Hm w e w' H. destruct (Hm _ _ _ H) as [Hf Hr].
  split; [exact Hf|]. apply Hr. reflexivity.
Qed.

Lemma safe_bind {A B} (m : M A) (k : A → M B) :
  quiet m → (∀ a, safe (k a)) → safe (bind m k).
Proof.
  intros Hm Hk w e w' H. unfold bind in H.
  destruct (m w) as [[a|e1] w1] eqn:E.
  - destruct (Hm _ _ _ E) as [Hf _]. destruct (Hk a _ _ _ H) as [Hf' Hr].
    split; [congruence|exact Hr].
  - injection H as <- <-. destruct (Hm _ _ _ E) as [Hf Hr].
    split; [exact Hf|]. apply Hr. reflexivity.
Qed.

Lemma quiet_readFile path : quiet (readFile path).
Proof.
  intros w r w' H. rewrite readFile_stored in H. injection H as <- <-.
  split; [reflexivity|auto with safety].
Qed.

Lemma quiet_randomHex n : quiet (randomHex n).
Proof. intros w r w' [= <- <-]. split; [reflexivity|auto with safety]. Qed.

Lemma quiet_validateDoc document : quiet (validateDoc document).
Proof.
  unfold validateDoc. destruct (not_plain_object document); [apply quiet_throw|].
  destruct (negb _); [|apply quiet_ret].
  apply quiet_bind; [apply quiet_randomHex|]. intros id. apply quiet_ret.
Qed.

(** Saving is the last step of an operation: if it throws, nothing has been
    written. *)
Lemma safe_writeFile_last path data :
  safe (let! _ := writeFile path data in ret VUndefined).
Proof.
  intros w e w' H.
  destruct (JSON_stringify data) as [text|] eqn:E.
  - rewrite (bind_ok _ _ _ _ _ (writeFile_ok path data text w E)) in H.
    discriminate.
  - unfold writeFile in H. rewrite E in H.
    assert (Hlog : console_log path w = (Ok tt, add_events w [ConsoleLog path]))
      by reflexivity.
    unfold bind at 1 in H.
    rewrite (bind_ok _ _ _ _ _ Hlog) in H.
    rewrite (bind_ok _ _ _ _ _ (ensureDirectoryExists_spec _ _)) in H.
    injection H as <- <-. split; [reflexivity|eauto].
Qed.

Lemma safe_read_modify_write path change :
  (∀ data, only_TypeError (change data)) → safe (read_modify_write path change).
Proof.
  intros Hc. unfold read_modify_write.
  apply safe_bind; [apply quiet_readFile|]. intros data.
  apply safe_bind; [apply quiet_lift, Hc|]. intros data'.
  apply safe_writeFile_last.
Qed.

Lemma quiet_insertMany_loop docs : ∀ data, quiet (Database.insertMany_loop docs data).
Proof.
  induction docs as [|d docs IH]; intros data; simpl; [apply quiet_ret|].
  apply quiet_bind; [apply quiet_validateDoc|]. intros d'.
  apply quiet_bind; [apply quiet_lift, Array_push_only_TypeError|].
  intros data'. apply IH.
Qed.

(** With a name that passes the check, an operation throws [TypeError]s
    only, and has written nothing when it throws. *)
Lemma perform_safe this c :
  validateAlphabetical (collection_of c) = true → safe (perform this c).
Proof.
  destruct c as [n d|n ds|n i|n f|n f|n i u|n f u|n f|n i]; simpl; intros Hn.
  - unfold Database.insertOne. rewrite Hn. simpl.
    destruct (not_plain_object d); [apply quiet_safe, quiet_throw|].
    apply safe_bind; [apply quiet_validateDoc|]. intros d'.
    apply safe_bind; [apply quiet_readFile|]. intros data.
    apply safe_bind; [apply quiet_lift, Array_push_only_TypeError|]. intros data'.
    apply safe_writeFile_last.
  - unfold Database.insertMany. rewrite Hn. simpl.
    destruct ds; try (apply quiet_safe, quiet_throw).
    destruct (negb _); [apply quiet_safe, quiet_throw|].
    apply safe_bind; [apply quiet_readFile|]. intros data.
    apply safe_bind; [apply quiet_insertMany_loop|]. intros data'.
    apply safe_writeFile_last.
  - unfold Database.findById. rewrite Hn. simpl. apply quiet_safe.
    apply quiet_bind; [apply quiet_readFile|]. intros data.
    apply quiet_bind; [apply quiet_lift, filter_only_TypeError|]. intros found.
    apply quiet_ret.
  - unfold Database.findMany. rewrite Hn. simpl. apply quiet_safe.
    apply quiet_bind; [apply quiet_readFile|]. intros data.
    apply quiet_lift, filter_only_TypeError.
  - unfold Database.findOne. rewrite Hn. simpl. apply quiet_safe.
    apply quiet_bind; [apply quiet_readFile|]. intros data.
    apply quiet_bind; [apply quiet_lift, filter_only_TypeError|]. intros found.
    apply quiet_ret.
  - unfold Database.updateById. rewrite Hn. simpl.
    apply (safe_read_modify_write _ (fun data => wdata.update data _ u)).
    intros data. apply update_only_TypeError.
  - unfold Database.update. rewrite Hn. simpl.
    apply (safe_read_modify_write _ (fun data => wdata.update data f u)).
    intros data. apply update_only_TypeError.
  - unfold Database.delete. rewrite Hn. simpl.
    apply (safe_read_modify_write _ (fun data => wdata.erase data f)).
    intros data. apply erase_only_TypeError.
  - unfold Database.deleteById. rewrite Hn. simpl.
    apply (safe_read_modify_write _ (fun data => wdata.erase data _)).
    intros data. apply erase_only_TypeError.
Qed.

(** With a name that fails the check, an operation throws at once. *)
Lemma perform_invalid_name this c w :
  validateAlphabetical (collection_of c) = false →
  perform this c w = (Throw CollectionError, w).
Proof.
  destruct c; simpl; intros Hn;
    unfold Database.insertOne, Database.insertMany, Database.findById,
      Database.findMany, Database.findOne, Database.updateById, Database.update,
      Database.delete, Database.deleteById;
    rewrite Hn; reflexivity.
Qed.

(** C4 (as amended). A collection name that fails the check makes every
    operation throw before any access to the file system.  [insertOne]
    throws a [TypeError], also before any access, for a document that is not
    a plain object, and so does [insertMany] for a [docs] that is not an
    array or holds an element that is not a non-null object.  [update] and
    [updateById] leave the check of the update spec to workflow-data, which
    rejects one that is not a non-null object after the collection file has
    been looked up.  Whenever an operation throws, no file has changed. *)
Theorem validation_errors this c w :
  (validateAlphabetical (collection_of c) = false →
   perform this c w = (Throw CollectionError, w))
  ∧ (∀ n d, c = InsertOne n d →
       validateAlphabetical n = true → not_plain_object d = true →
       ∃ msg, perform this c w = (Throw (TypeError msg), w))
  ∧ (∀ n ds, c = InsertMany n ds →
       validateAlphabetical n = true → not_array_of_objects ds = true →
       ∃ msg, perform this c w = (Throw (TypeError msg), w))
  ∧ (∀ n f u, c = Update n f u ∨ (∃ i, c = UpdateById n i u ∧ f = by_id i) →
       validateAlphabetical n = true → wdata.bad_object u = true →
       ∃ msg evs,
         perform this c w
         = (Throw (TypeError msg),
            add_events w (ExistsSync (Database.filepath this n) :: evs)))
  ∧ (∀ e w', perform this c w = (Throw e, w') → files w' = files w).
Proof.
  split; [apply perform_invalid_name|]. split; [|split; [|split]].
  - intros n d -> Hn Hd. simpl. unfold Database.insertOne.
    rewrite Hn, Hd. simpl. eauto.
  - intros n ds -> Hn Hds. simpl. unfold Database.insertMany. rewrite Hn. simpl.
    destruct ds; simpl in Hds; eauto. rewrite Hds. eauto.
  - intros n f u Hc Hn Hu.
    assert (Hrun : perform this c w
                   = read_modify_write (Database.filepath this n)
                       (fun data => wdata.update data f u) w).
    { destruct Hc as [->|(i & -> & ->)]; simpl;
        [unfold Database.update|unfold Database.updateById];
        rewrite Hn; reflexivity. }
    rewrite Hrun. unfold read_modify_write.
    rewrite (bind_ok _ _ _ _ _ (readFile_stored _ w)).
    assert (Hev : ∃ evs, readFile_events w (Database.filepath this n)
                         = ExistsSync (Database.filepath this n) :: evs).
    { unfold readFile_events. repeat case_match; eauto. }
    destruct Hev as [evs ->].
    assert (Hthrow : ∃ msg, wdata.update (stored w (Database.filepath this n)) f u
                            = Throw (TypeError msg)).
    { unfold wdata.update. destruct (stored w _); eauto.
      destruct (wdata.bad_object f); eauto. rewrite Hu. eauto. }
    destruct Hthrow as [msg Hmsg].
    exists msg, evs. unfold lift, bind. rewrite Hmsg. reflexivity.
  - intros e w' H.
    destruct (validateAlphabetical (collection_of c)) eqn:Hn.
    + exact (proj1 (perform_safe this c Hn w e w' H)).
    + rewrite (perform_invalid_name this c w Hn) in H. congruence.
Qed.

Lemma validation_errors_witness :
  perform db (FindMany "fam/../etc" (VObj [])) family_world
  = (Throw CollectionError, family_world)
  ∧ ∃ msg, perform db (InsertOne "fam" (VArr [])) family_world
           = (Throw (TypeError msg), family_world).
Proof.
  split.
  - apply (proj1 (validation_errors db (FindMany "fam/../etc" (VObj [])) family_world)).
    reflexivity.
  - apply (proj1 (proj2 (validation_errors db (InsertOne "fam" (VArr []))
                           family_world)) "fam" (VArr []));
      reflexivity.
Defined.

(** C4 as stated fails: [updateById] with the update spec [null] throws only
    after the file system has been asked whether the collection file exists;
    [insertMany] with an array among the documents throws after the
    collection file has been looked up as well; and an array is accepted as
    an update spec without any error. *)
Lemma validation_before_file_access_counterexample :
  not_plain_object VNull = true
  ∧ (∃ w', perform db (UpdateById "fam" (VStr "83a8cdf2173c6186") VNull) empty_world
           = (Throw (TypeError "update: updates parameter must be a non-null object."),
              w')
           ∧ List.filter fs_event (events w')
             = [ExistsSync "__tests__/database/fam.json"])
  ∧ (∃ w', perform db (InsertMany "fam" (VArr [VArr [VNum 1]])) empty_world
           = (Throw (TypeError
                       "Failed to validate document, received a non-object value."),
              w')
           ∧ List.filter fs_event (events w')
             = [ExistsSync "__tests__/database/fam.json"])
  ∧ not_plain_object (VArr [VNum 1]) = true
  ∧ (perform db (Update "fam" (VObj []) (VArr [VNum 1])) family_world).1
    = Ok VUndefined.
Proof.
  split; [reflexivity|]. split; [|split; [|split]].
  - eexists. split; vm_compute; reflexivity.
  - eexists. split; vm_compute; reflexivity.
  - reflexivity.
  - vm_compute. reflexivity.
Qed.

(** ** Collection names *)





(** ** Loading *)




(** ** Identifiers *)

Lemma hex_of_byte_shape b :
  String.length (hex_of_byte b) = 2 ∧ all_chars hex_char (hex_of_byte b) = true.
Proof. destruct b; split; reflexivity. Qed.

Lemma all_chars_append p a b :
  all_chars p (a +:+ b) = all_chars p a && all_chars p b.
Proof.
  induction a as [|c a IH]; simpl; [reflexivity|].
  rewrite IH, andb_assoc. reflexivity.
Qed.

Lemma join_empty p parts : join "" (p :: parts) = p +:+ join "" parts.
Proof.
  destruct parts; simpl; [rewrite append_empty_r; reflexivity|reflexivity].
Qed.

Lemma hex_string_shape bytes :
  String.length (join "" (List.map hex_of_byte bytes)) = 2 * length bytes
  ∧ all_chars hex_char (join "" (List.map hex_of_byte bytes)) = true.
Proof.
  induction bytes as [|b bytes [IHl IHc]]; [split; reflexivity|].
  change (List.map hex_of_byte (b :: bytes))
    with (hex_of_byte b :: List.map hex_of_byte bytes).
  rewrite join_empty, length_append, all_chars_append, IHl, IHc.
  destruct (hex_of_byte_shape b) as [-> ->]. split; [simpl; lia|reflexivity].
Qed.

Lemma randomHex_spec n w :
  randomHex n w
  = (Ok (join "" (List.map hex_of_byte (List.map (entropy w) (seq (drawn w) n)))),
     after_drawing w n).
Proof. reflexivity. Qed.

Lemma id_of_set_prop d v : id_of (VObj (obj_set "_id" v d)) = v.
Proof.
  unfold id_of, get_prop. rewrite own_lookup_obj_set, String.eqb_refl. reflexivity.
Qed.

Lemma validateDoc_truthy d w :
  to_boolean (id_of (VObj d)) = true → validateDoc (VObj d) w = (Ok (VObj d), w).
Proof.
  intros H. unfold validateDoc. unfold id_of in H.
  change (not_plain_object (VObj d)) with false. cbv iota.
  rewrite H. reflexivity.
Qed.

(** C2 (as amended). For a document without [_id], or with a falsy one,
    [validateDoc] sets [_id] to a string of 16 hexadecimal digits, two for
    each of 8 bytes drawn from the random source; a document with a truthy
    [_id] is returned as it is.  The returned document always has a truthy
    [_id], which is a non-empty string when it was generated or when the
    [_id] given was a string; and [validateDoc] applied to the returned
    document returns it unchanged. *)
Theorem validateDoc_assigns_identity (d : list (string * value)) w :
  (to_boolean (id_of (VObj d)) = false →
   ∃ id, validateDoc (VObj d) w
         = (Ok (VObj (obj_set "_id" (VStr id) d)), after_drawing w 8)
         ∧ id = join "" (List.map hex_of_byte
                           (List.map (entropy w) (seq (drawn w) 8)))
         ∧ String.length id = 16
         ∧ all_chars hex_char id = true)
  ∧ (to_boolean (id_of (VObj d)) = true →
     validateDoc (VObj d) w = (Ok (VObj d), w))
  ∧ (∃ d' w',
       validateDoc (VObj d) w = (Ok (VObj d'), w')
       ∧ to_boolean (id_of (VObj d')) = true
       ∧ (to_boolean (id_of (VObj d)) = false
          ∨ typeof (id_of (VObj d)) = "string" →
          ∃ s, id_of (VObj d') = VStr s ∧ s ≠ "")
       ∧ validateDoc (VObj d') w' = (Ok (VObj d'), w')).
Proof.
  assert (Hgen : to_boolean (id_of (VObj d)) = false →
                 ∃ id, validateDoc (VObj d) w
                       = (Ok (VObj (obj_set "_id" (VStr id) d)), after_drawing w 8)
                       ∧ id = join "" (List.map hex_of_byte
                                         (List.map (entropy w) (seq (drawn w) 8)))
                       ∧ String.length id = 16
                       ∧ all_chars hex_char id = true).
  { intros H. eexists. split; [|split; [reflexivity|]].
    - unfold validateDoc. unfold id_of in H.
      change (not_plain_object (VObj d)) with false. cbv iota.
      rewrite H. reflexivity.
    - destruct (hex_string_shape (List.map (entropy w) (seq (drawn w) 8)))
        as [Hl Hc].
      rewrite Hl, Hc, length_map, length_seq. split; reflexivity. }
  split; [exact Hgen|]. split; [apply validateDoc_truthy|].
  destruct (to_boolean (id_of (VObj d))) eqn:E.
  - exists d, w. split; [apply validateDoc_truthy, E|]. split; [exact E|].
    split; [|apply validateDoc_truthy, E].
    intros [H|H]; [discriminate|].
    destruct (id_of (VObj d)) as [| | | | |s| |]; try discriminate.
    exists s. split; [reflexivity|]. intros ->. discriminate.
  - destruct (Hgen eq_refl) as (id & Hrun & _ & Hlen & _).
    assert (Hid : id ≠ "") by (intros ->; discriminate).
    assert (Htruthy : to_boolean (id_of (VObj (obj_set "_id" (VStr id) d))) = true).
    { rewrite id_of_set_prop. simpl. destruct id; [congruence|reflexivity]. }
    exists (obj_set "_id" (VStr id) d), (after_drawing w 8).
    split; [exact Hrun|]. split; [exact Htruthy|].
    split; [|apply validateDoc_truthy, Htruthy].
    intros _. exists id. split; [apply id_of_set_prop|exact Hid].
Qed.

Lemma validateDoc_assigns_identity_witness :
  ∃ id, validateDoc (VObj [("name", VStr "Alice")]) empty_world
        = (Ok (VObj [("name", VStr "Alice"); ("_id", VStr id)]),
           after_drawing empty_world 8)
        ∧ id = "0b30557a9fc4e90e"
        ∧ String.length id = 16
        ∧ all_chars hex_char id = true.
Proof.
  apply (proj1 (validateDoc_assigns_identity [("name", VStr "Alice")] empty_world)).
  reflexivity.
Defined.

(** C2 as stated fails: a document whose [_id] is the number 42 comes back
    with that number, which is not a string, as its [_id]. *)
Lemma validateDoc_keeps_number_id_counterexample :
  let d := VObj [("_id", VNum 42); ("name", VStr "Alice")] in
  not_plain_object d = false
  ∧ validateDoc d empty_world = (Ok d, empty_world)
  ∧ id_of d = VNum 42
  ∧ typeof (id_of d) = "number".
Proof. repeat split; reflexivity. Qed.

(** ** Inserting documents *)





















(** ** What the finds return *)

Lemma findMany_run this collection f w docs :
  validateAlphabetical collection = true →
  stored w (Database.filepath this collection) = VArr docs →
  forallb readable docs = true → wdata.bad_object f = false →
  Database.findMany this collection f w
  = (Ok (VArr (List.filter (matchesb f) docs)),
     add_events w (readFile_events w (Database.filepath this collection))).
Proof.
  intros Hname Hstored Hread Hf. unfold Database.findMany. rewrite Hname. simpl.
  rewrite (bind_ok _ _ _ _ _ (readFile_stored _ w)), Hstored.
  unfold lift. rewrite (filter_readable docs f Hread Hf). reflexivity.
Qed.

Lemma findOne_run this collection f w docs :
  validateAlphabetical collection = true →
  stored w (Database.filepath this collection) = VArr docs →
  forallb readable docs = true → wdata.bad_object f = false →
  Database.findOne this collection f w
  = (Ok (default VUndefined (List.find (matchesb f) docs)),
     add_events w (readFile_events w (Database.filepath this collection))).
Proof.
  intros Hname Hstored Hread Hf. unfold Database.findOne. rewrite Hname. simpl.
  rewrite (bind_ok _ _ _ _ _ (readFile_stored _ w)), Hstored.
  unfold lift, bind. rewrite (filter_readable docs f Hread Hf).
  unfold ret. rewrite first_head, head_filter. reflexivity.
Qed.








Lemma filter_sublist {A} (p : A → bool) l : sublist (List.filter p l) l.
Proof.
  induction l as [|x l IH]; simpl; [constructor|].
  destruct (p x); constructor; exact IH.
Qed.





(** ** Reading changes nothing *)

Lemma find_run this c :
  is_find c = true → validateAlphabetical (collection_of c) = true →
  ∃ g : value → result value,
    ∀ w, perform this c w
         = (g (stored w (Database.filepath this (collection_of c))),
            add_events w (readFile_events w (Database.filepath this (collection_of c)))).
Proof.
  destruct c as [n d|n ds|n i|n f|n f|n i u|n f u|n f|n i]; try discriminate;
    simpl; intros _ Hn.
  - exists (fun data => let? found := wdata.filter data (by_id i) in Ok (first found)).
    intros w. unfold Database.findById. rewrite Hn. simpl.
    rewrite (bind_ok _ _ _ _ _ (readFile_stored _ w)).
    unfold lift, bind, ret. destruct (wdata.filter _ _); reflexivity.
  - exists (fun data => wdata.filter data f).
    intros w. unfold Database.findMany. rewrite Hn. simpl.
    rewrite (bind_ok _ _ _ _ _ (readFile_stored _ w)). reflexivity.
  - exists (fun data => let? found := wdata.filter data f in Ok (first found)).
    intros w. unfold Database.findOne. rewrite Hn. simpl.
    rewrite (bind_ok _ _ _ _ _ (readFile_stored _ w)).
    unfold lift, bind, ret. destruct (wdata.filter _ _); reflexivity.
Qed.

Lemma readFile_events_read_only w path :
  List.filter changes_disk (readFile_events w path) = [].
Proof. unfold readFile_events. repeat case_match; reflexivity. Qed.

(** X5. [findById], [findMany] and [findOne] only read: whatever their
    arguments and whether they return or throw, the files, the directories
    and the random source are as before, no directory has been made and no
    file written; and the same call made again returns the same result. *)
Theorem find_operations_only_read this c w :
  is_find c = true →
  let w' := (perform this c w).2 in
  files w' = files w ∧ dirs w' = dirs w
  ∧ entropy w' = entropy w ∧ drawn w' = drawn w
  ∧ (∃ evs, events w' = events w ++ evs ∧ List.filter changes_disk evs = [])
  ∧ (perform this c w').1 = (perform this c w).1.
Proof.
  intros Hfind.
  destruct (validateAlphabetical (collection_of c)) eqn:Hn.
  - destruct (find_run this c Hfind Hn) as [g Hg].
    rewrite !Hg. simpl.
    repeat split; try reflexivity.
    + eexists. split; [reflexivity|apply readFile_events_read_only].
    + rewrite Hg. reflexivity.
  - rewrite !(perform_invalid_name this c w Hn). simpl.
    repeat split; try reflexivity.
    + exists []. rewrite app_nil_r. split; reflexivity.
    + rewrite (perform_invalid_name this c w Hn). reflexivity.
Qed.

Lemma find_operations_only_read_witness :
  let c := FindMany "fam" (VObj [("relation", VStr "son")]) in
  files (perform db c family_world).2 = files family_world
  ∧ (perform db c (perform db c family_world).2).1 = (perform db c family_world).1.
Proof.
  destruct (find_operations_only_read db
              (FindMany "fam" (VObj [("relation", VStr "son")])) family_world)
    as (Hf & _ & _ & _ & _ & Hr).
  - reflexivity.
  - split; [exact Hf|exact Hr].
Defined.

(** ** Deleting, then finding *)


Lemma filter_filter_negb {A} (p : A → bool) l :
  List.filter p (List.filter (fun x => negb (p x)) l) = [].
Proof.
  induction l as [|x l IH]; simpl; [reflexivity|].
  destruct (p x) eqn:E; simpl; [exact IH|]. rewrite E. exact IH.
Qed.

Lemma filter_readable_sub (p : value → bool) l :
  forallb readable l = true → forallb readable (List.filter p l) = true.
Proof.
  rewrite !forallb_forall. intros H x Hx. apply filter_In in Hx as [Hx _].
  apply H, Hx.
Qed.



(** ** Updating twice, deleting twice *)










(** ** What an update keeps *)




(** ** What every operation does to the disk *)

Lemma tame_ret {A} (a : A) : tame (ret a).
Proof.
  intros w r w' [= <- <-]. exists [], (drawn w). split; [reflexivity|].
  destruct w. unfold set_drawn, add_events. simpl. rewrite app_nil_r. reflexivity.
Qed.

Lemma tame_throw {A} e : tame (@throw A e).
Proof. intros w r w' H. apply (tame_ret tt w (Ok tt) w'). injection H as _ <-. reflexivity. Qed.

Lemma tame_lift {A} (r : result A) : tame (lift r).
Proof. intros w r' w' H. apply (tame_ret tt w (Ok tt) w'). injection H as _ <-. reflexivity. Qed.

Lemma tame_bind {A B} (m : M A) (k : A → M B) :
  tame m → (∀ a, tame (k a)) → tame (bind m k).
Proof.
  intros Hm Hk w r w' H. unfold bind in H.
  destruct (m w) as [[a|e] w1] eqn:E.
  - destruct (Hm _ _ _ E) as (evs1 & n1 & H1 & ->).
    destruct (Hk a _ _ _ H) as (evs2 & n2 & H2 & ->).
    exists (evs1 ++ evs2), n2. split.
    + rewrite List.filter_app, H1, H2. reflexivity.
    + unfold set_drawn, add_events. simpl. rewrite app_assoc. reflexivity.
  - injection H as <- <-. apply (Hm _ _ _ E).
Qed.

Lemma tame_readFile path : tame (readFile path).
Proof.
  intros w r w' H. rewrite readFile_stored in H. injection H as <- <-.
  exists (readFile_events w path), (drawn w).
  split; [apply readFile_events_read_only|]. reflexivity.
Qed.

Lemma tame_randomHex n : tame (randomHex n).
Proof.
  intros w r w' [= <- <-]. exists [], (drawn w + n). split; [reflexivity|].
  unfold set_drawn, add_events. simpl. rewrite app_nil_r. reflexivity.
Qed.

Lemma tame_validateDoc document : tame (validateDoc document).
Proof.
  unfold validateDoc. destruct (not_plain_object document); [apply tame_throw|].
  destruct (negb _); [|apply tame_ret].
  apply tame_bind; [apply tame_randomHex|]. intros id. apply tame_ret.
Qed.

Lemma loads_data_lift (r : result value) :
  (∀ a, r = Ok a → Array_isArray a = true) → loads_data (lift r).
Proof.
  intros H. split; [apply tame_lift|].
  intros w a w' [= -> <-] ->. specialize (H _ eq_refl). discriminate.
Qed.

Lemma loads_data_bind {A} (m : M A) (k : A → M value) :
  tame m → (∀ a, loads_data (k a)) → loads_data (bind m k).
Proof.
  intros Hm Hk. split; [apply tame_bind; [exact Hm|intros a; apply Hk]|].
  intros w a w' H. unfold bind in H.
  destruct (m w) as [[x|e] w1]; [|discriminate].
  apply (proj2 (Hk x) _ _ _ H).
Qed.

Lemma Array_push_array data document a :
  Array_push data document = Ok a → Array_isArray a = true.
Proof. destruct data; simpl; intros [= <-]; reflexivity. Qed.

Lemma update_array data f u a : wdata.update data f u = Ok a → Array_isArray a = true.
Proof.
  unfold wdata.update. destruct data; try discriminate.
  destruct (wdata.bad_object f); [discriminate|].
  destruct (wdata.bad_object u); [discriminate|].
  destruct (Array_forEach _ _); simpl; intros [= <-]; reflexivity.
Qed.

Lemma erase_array data f a : wdata.erase data f = Ok a → Array_isArray a = true.
Proof.
  unfold wdata.erase. destruct data; try discriminate.
  destruct (wdata.bad_object f); [discriminate|].
  destruct (wdata.erase_loop _ _ _); simpl; intros [= <-]; reflexivity.
Qed.

Lemma tame_insertMany_loop docs : ∀ data, tame (Database.insertMany_loop docs data).
Proof.
  induction docs as [|d docs IH]; intros data; simpl; [apply tame_ret|].
  apply tame_bind; [apply tame_validateDoc|]. intros d'.
  apply tame_bind; [apply tame_lift|]. intros data'. apply IH.
Qed.

Lemma insertMany_loop_defined docs : ∀ data w a w',
  data ≠ VUndefined →
  Database.insertMany_loop docs data w = (Ok a, w') → a ≠ VUndefined.
Proof.
  induction docs as [|d docs IH]; intros data w a w' Hdata; simpl.
  - intros [= <- <-]. exact Hdata.
  - unfold bind at 1. destruct (validateDoc d w) as [[d'|e] w1]; [|discriminate].
    unfold bind at 1, lift at 1.
    destruct (Array_push data d') as [data'|e] eqn:E; [|discriminate].
    apply IH. intros ->. apply Array_push_array in E. discriminate.
Qed.

Lemma stored_defined w path : stored w path ≠ VUndefined.
Proof.
  intros H. pose proof (stored_representable w path) as Hr.
  rewrite H in Hr. discriminate.
Qed.

Lemma world_same w : set_drawn (add_events w []) (drawn w) = w.
Proof. destruct w. unfold set_drawn, add_events. simpl. rewrite app_nil_r. reflexivity. Qed.

Lemma defined_stringify a : a ≠ VUndefined → ∃ text, JSON_stringify a = Some text.
Proof.
  destruct a as [| |[]| | | | |]; intros H; try congruence; eexists; reflexivity.
Qed.

Lemma save_after_world path prelude w :
  loads_data prelude →
  ∃ evs n, List.filter changes_disk evs = []
    ∧ ((∃ e, save_after path prelude w = (Throw e, set_drawn (add_events w evs) n))
       ∨ (∃ text, save_after path prelude w
                  = (Ok VUndefined,
                     writeFile_world (set_drawn (add_events w evs) n) path text))).
Proof.
  intros [Ht Ha].
  destruct (prelude w) as [[a|e] w1] eqn:E;
    destruct (Ht _ _ _ E) as (evs & n & Hevs & Hw); exists evs, n;
    (split; [exact Hevs|]); unfold save_after.
  - right. destruct (defined_stringify a (Ha _ _ _ E)) as [text Htext].
    exists text. rewrite (bind_ok _ _ _ _ _ E).
    rewrite (bind_ok _ _ _ _ _ (writeFile_ok path a text _ Htext)).
    rewrite Hw. reflexivity.
  - left. exists e. unfold bind. rewrite E, Hw. reflexivity.
Qed.

(** Every operation either leaves the disk as it is (when it throws, and
    when it is one of the three finds) or ends with [writeFile] on the file
    of its collection. *)
Lemma perform_world this c w :
  ∃ evs n, List.filter changes_disk evs = []
    ∧ (((perform this c w).2 = set_drawn (add_events w evs) n
        ∧ (is_find c = true ∨ ∃ e, (perform this c w).1 = Throw e))
       ∨ (∃ text,
            perform this c w
            = (Ok VUndefined,
               writeFile_world (set_drawn (add_events w evs) n)
                 (Database.filepath this (collection_of c)) text)
            ∧ is_find c = false)).
Proof.
  destruct (validateAlphabetical (collection_of c)) eqn:Hn.
  2:{ exists [], (drawn w). split; [reflexivity|]. left.
      rewrite (perform_invalid_name this c w Hn), world_same. simpl. eauto. }
  assert (Hsave : ∀ prelude,
            loads_data prelude → is_find c = false →
            (∀ w, perform this c w
                  = save_after (Database.filepath this (collection_of c)) prelude w) →
            ∃ evs n, List.filter changes_disk evs = []
              ∧ (((perform this c w).2 = set_drawn (add_events w evs) n
                  ∧ (is_find c = true ∨ ∃ e, (perform this c w).1 = Throw e))
                 ∨ (∃ text,
                      perform this c w
                      = (Ok VUndefined,
                         writeFile_world (set_drawn (add_events w evs) n)
                           (Database.filepath this (collection_of c)) text)
                      ∧ is_find c = false))).
  { intros prelude Hp Hc Heq.
    destruct (save_after_world (Database.filepath this (collection_of c)) prelude w Hp)
      as (evs & n & Hevs & [[e He]|[text Htext]]); exists evs, n;
      (split; [exact Hevs|]); rewrite Heq.
    - left. rewrite He. simpl. eauto.
    - right. exists text. split; [exact Htext|exact Hc]. }
  assert (Hthrow : ∀ e, perform this c w = (Throw e, w) →
            ∃ evs n, List.filter changes_disk evs = []
              ∧ (((perform this c w).2 = set_drawn (add_events w evs) n
                  ∧ (is_find c = true ∨ ∃ e, (perform this c w).1 = Throw e))
                 ∨ (∃ text,
                      perform this c w
                      = (Ok VUndefined,
                         writeFile_world (set_drawn (add_events w evs) n)
                           (Database.filepath this (collection_of c)) text)
                      ∧ is_find c = false))).
  { intros e He. exists [], (drawn w). split; [reflexivity|]. left.
    rewrite He, world_same. simpl. eauto. }
  destruct (is_find c) eqn:Hfind.
  { destruct (find_run this c Hfind Hn) as [g Hg].
    exists (readFile_events w (Database.filepath this (collection_of c))), (drawn w).
    split; [apply readFile_events_read_only|]. left. rewrite Hg. simpl.
    split; [reflexivity|left; reflexivity]. }
  destruct c as [n d|n ds|n i|n f|n f|n i u|n f u|n f|n i]; try discriminate;
    simpl in Hn.
  - destruct (not_plain_object d) eqn:Hd.
    + apply (Hthrow (TypeError
               "Expected an object for 'document', but received a non-object value.")).
      simpl. unfold Database.insertOne. rewrite Hn, Hd. reflexivity.
    + apply (Hsave (let! document := validateDoc d in
                    let! data := readFile (Database.filepath this n) in
                    lift (Array_push data document))); [|reflexivity|].
      * apply loads_data_bind; [apply tame_validateDoc|]. intros d'.
        apply loads_data_bind; [apply tame_readFile|]. intros data.
        apply loads_data_lift, Array_push_array.
      * intros w0. simpl. unfold Database.insertOne, save_after. rewrite Hn, Hd. simpl.
        unfold bind. destruct (validateDoc d w0) as [[d'|e] w1]; [|reflexivity].
        destruct (readFile _ w1) as [[data|e] w2]; [|reflexivity].
        unfold lift. destruct (Array_push data d'); reflexivity.
  - destruct (not_array_of_objects ds) eqn:Hds.
    + apply (Hthrow (TypeError "Expected an array of objects for 'docs'.")).
      simpl. unfold Database.insertMany. rewrite Hn. simpl.
      destruct ds; try reflexivity. simpl in Hds. rewrite Hds. reflexivity.
    + destruct ds as [| | | | | |l|]; try discriminate. simpl in Hds.
      apply (Hsave (let! data := readFile (Database.filepath this n) in
                    Database.insertMany_loop l data)); [|reflexivity|].
      * split.
        -- apply tame_bind; [apply tame_readFile|]. intros data.
           apply tame_insertMany_loop.
        -- intros w0 a w1 H. rewrite (bind_ok _ _ _ _ _ (readFile_stored _ w0)) in H.
           apply (insertMany_loop_defined _ _ _ _ _ (stored_defined _ _) H).
      * intros w0. simpl. unfold Database.insertMany, save_after. rewrite Hn, Hds. simpl.
        unfold bind. destruct (readFile _ w0) as [[data|e] w1]; [|reflexivity].
        destruct (Database.insertMany_loop l data w1) as [[data'|e] w2]; reflexivity.
  - apply (Hsave (let! data := readFile (Database.filepath this n) in
                  lift (wdata.update data (VObj [("_id", i)]) u))); [|reflexivity|].
    + apply loads_data_bind; [apply tame_readFile|]. intros data.
      apply loads_data_lift, update_array.
    + intros w0. simpl. unfold Database.updateById, save_after. rewrite Hn. simpl.
      unfold bind. destruct (readFile _ w0) as [[data|e] w1]; [|reflexivity].
      unfold lift. destruct (wdata.update _ _ _); reflexivity.
  - apply (Hsave (let! data := readFile (Database.filepath this n) in
                  lift (wdata.update data f u))); [|reflexivity|].
    + apply loads_data_bind; [apply tame_readFile|]. intros data.
      apply loads_data_lift, update_array.
    + intros w0. simpl. unfold Database.update, save_after. rewrite Hn. simpl.
      unfold bind. destruct (readFile _ w0) as [[data|e] w1]; [|reflexivity].
      unfold lift. destruct (wdata.update _ _ _); reflexivity.
  - apply (Hsave (let! data := readFile (Database.filepath this n) in
                  lift (wdata.erase data f))); [|reflexivity|].
    + apply loads_data_bind; [apply tame_readFile|]. intros data.
      apply loads_data_lift, erase_array.
    + intros w0. simpl. unfold Database.delete, save_after. rewrite Hn. simpl.
      unfold bind. destruct (readFile _ w0) as [[data|e] w1]; [|reflexivity].
      unfold lift. destruct (wdata.erase _ _); reflexivity.
  - apply (Hsave (let! data := readFile (Database.filepath this n) in
                  lift (wdata.erase data (VObj [("_id", i)])))); [|reflexivity|].
    + apply loads_data_bind; [apply tame_readFile|]. intros data.
      apply loads_data_lift, erase_array.
    + intros w0. simpl. unfold Database.deleteById, save_after. rewrite Hn. simpl.
      unfold bind. destruct (readFile _ w0) as [[data|e] w1]; [|reflexivity].
      unfold lift. destruct (wdata.erase _ _); reflexivity.
Qed.

(** ** The directory of a collection file *)

Lemma dirname_scan_no_slash l1 : ∀ i l2 m,
  forallb (fun c => negb (Ascii.eqb c "/")) l1 = true →
  l1 ≠ [] →
  dirname_scan i (l1 ++ l2) m = dirname_scan (i - length l1) l2 false.
Proof.
  induction l1 as [|c l1 IH]; intros i l2 m Hall Hne; [congruence|].
  simpl in Hall. apply andb_true_iff in Hall as [Hc Hall].
  apply negb_true_iff in Hc. simpl. rewrite Hc.
  destruct l1 as [|c' l1'].
  - simpl. f_equal. lia.
  - rewrite (IH (pred i) l2 false Hall) by discriminate. f_equal. simpl. lia.
Qed.

Lemma list_ascii_append a b :
  list_ascii_of_string (a +:+ b) = list_ascii_of_string a ++ list_ascii_of_string b.
Proof. induction a as [|c a IH]; simpl; [reflexivity|]. rewrite IH. reflexivity. Qed.

Lemma all_chars_forallb p s :
  all_chars p s = forallb p (list_ascii_of_string s).
Proof. induction s as [|c s IH]; simpl; [reflexivity|]. rewrite IH. reflexivity. Qed.

Lemma length_list_ascii s : length (list_ascii_of_string s) = String.length s.
Proof. induction s as [|c s IH]; simpl; [reflexivity|]. rewrite IH. reflexivity. Qed.

Lemma substring_prefix a b : substring 0 (String.length a) (a +:+ b) = a.
Proof.
  induction a as [|c a IH]; simpl.
  - destruct b; reflexivity.
  - rewrite IH. reflexivity.
Qed.

Lemma is_alpha_no_slash c : is_alpha c = true → negb (Ascii.eqb c "/") = true.
Proof. destruct c as [[] [] [] [] [] [] [] []]; vm_compute; congruence. Qed.

Lemma all_alpha_no_slash s : all_alpha s = true → no_slash s = true.
Proof.
  induction s as [|c s IH]; simpl; [reflexivity|].
  intros H. apply andb_true_iff in H as [Hc Hs]. unfold no_slash in *. simpl.
  rewrite (is_alpha_no_slash c Hc), (IH Hs). reflexivity.
Qed.

(** [path.dirname] of the path of a collection file is the directory of the
    store. *)
Lemma path_dirname_filepath this collection :
  Database.directory this ≠ "" → Database.directory this ≠ "/" →
  validateAlphabetical collection = true →
  path_dirname (Database.filepath this collection) = Database.directory this.
Proof.
  intros Hne Hroot Hname. unfold Database.filepath.
  destruct (Database.directory this) as [|c0 dtail] eqn:Hdir; [congruence|].
  set (file := collection +:+ ".json").
  assert (Hfile : no_slash file = true).
  { unfold file, no_slash. rewrite all_chars_append.
    unfold validateAlphabetical in Hname. destruct collection; [discriminate|].
    pose proof (all_alpha_no_slash _ Hname) as H. unfold no_slash in H. rewrite H.
    reflexivity. }
  assert (Hlen : file ≠ "").
  { unfold file. destruct collection; discriminate. }
  change (String c0 dtail +:+ "/" +:+ collection +:+ ".json")
    with (String c0 dtail +:+ "/" +:+ file).
  assert (Hp : String c0 dtail +:+ "/" +:+ file = String c0 (dtail +:+ "/" +:+ file))
    by reflexivity.
  unfold path_dirname. rewrite Hp. cbv iota.
  rewrite !list_ascii_append, !rev_app_distr. simpl rev at 2.
  rewrite <- app_assoc.
  rewrite dirname_scan_no_slash.
  - simpl app. simpl dirname_scan.
    rewrite length_rev, length_list_ascii, !length_append. simpl String.length.
    replace (String.length dtail + S (String.length file) - String.length file)
      with (S (String.length dtail)) by lia.
    assert (Hr : Ascii.eqb c0 "/" && (S (String.length dtail) =? 1)%nat = false).
    { destruct (Ascii.eqb c0 "/") eqn:Ec; [|reflexivity].
      apply Ascii.eqb_eq in Ec. subst c0.
      destruct dtail; [congruence|reflexivity]. }
    rewrite Hr.
    change (String c0 (dtail +:+ "/" +:+ file))
      with (String c0 dtail +:+ ("/" +:+ file)).
    apply (substring_prefix (String c0 dtail)).
  - rewrite forallb_forall. intros x Hx. apply in_rev in Hx.
    unfold no_slash in Hfile. rewrite all_chars_forallb, forallb_forall in Hfile.
    apply Hfile, Hx.
  - intros H. apply (f_equal (@length _)) in H.
    rewrite length_rev, length_list_ascii in H. destruct file; [congruence|discriminate].
Qed.

Lemma append_cancel_l s a b : s +:+ a = s +:+ b → a = b.
Proof. induction s as [|c s IH]; simpl; [auto|]. intros [= H]. apply IH, H. Qed.

Lemma append_cancel_r s : ∀ a b, a +:+ s = b +:+ s → a = b.
Proof.
  intros a b H.
  assert (Hlen : String.length a = String.length b).
  { apply (f_equal String.length) in H. rewrite !length_append in H. lia. }
  revert b H Hlen. induction a as [|c a IH]; intros [|c' b] H Hlen;
    try discriminate; [reflexivity|].
  simpl in H. injection H as -> H. f_equal. apply IH; [exact H|].
  simpl in Hlen. lia.
Qed.

Lemma filepath_injective this a b :
  Database.filepath this a = Database.filepath this b → a = b.
Proof.
  unfold Database.filepath. intros H.
  apply append_cancel_l, append_cancel_l in H.
  apply (append_cancel_r ".json"), H.
Qed.

Lemma changes_disk_no_write evs :
  List.filter changes_disk evs = [] → List.filter is_write evs = [].
Proof.
  induction evs as [|e evs IH]; simpl; [reflexivity|].
  destruct e; simpl; try discriminate; exact IH.
Qed.

Lemma changes_disk_no_mkdir evs :
  List.filter changes_disk evs = [] → List.filter is_mkdir evs = [].
Proof.
  induction evs as [|e evs IH]; simpl; [reflexivity|].
  destruct e; simpl; try discriminate; exact IH.
Qed.

(** X9. Every operation writes at most once, and only the file of its own
    collection: an operation that throws and the three finds write nothing
    and leave every file as it was; every other operation that returns has
    called [fs.writeFileSync] exactly once, as its last action on the disk,
    on the file of its collection, and no other file has changed. *)
Theorem operations_write_their_file_once this c w :
  let path := Database.filepath this (collection_of c) in
  let r := (perform this c w).1 in
  let w' := (perform this c w).2 in
  ∃ evs,
    events w' = events w ++ evs
    ∧ ((is_find c = true ∨ (∃ e, r = Throw e)) →
       List.filter is_write evs = [] ∧ files w' = files w)
    ∧ (is_find c = false → (∃ v, r = Ok v) →
       ∃ text,
         List.filter is_write evs = [WriteFileSync path text]
         ∧ last evs = Some (WriteFileSync path text)
         ∧ files w' = <[path := text]> (files w)).
Proof.
  intros path r w'. subst path r w'.
  destruct (perform_world this c w) as (evs & n & Hevs & [[Hw Hcase]|(text & Hrun & Hfind)]).
  - exists evs. rewrite Hw. split; [reflexivity|]. split.
    + intros _. split; [apply changes_disk_no_write, Hevs|reflexivity].
    + intros Hfind [v Hv]. destruct Hcase as [Hc|[e He]]; congruence.
  - rewrite Hrun. simpl.
    exists (evs ++ [ConsoleLog (Database.filepath this (collection_of c));
                    ExistsSync (path_dirname (Database.filepath this (collection_of c)))]
                ++ (if known_path (set_drawn (add_events w evs) n)
                         (path_dirname (Database.filepath this (collection_of c)))
                    then [] else [MkdirSync (path_dirname
                                   (Database.filepath this (collection_of c)))])
                ++ [WriteFileSync (Database.filepath this (collection_of c)) text]).
    split; [rewrite <- !app_assoc; reflexivity|]. split.
    + intros [Hc|[e He]]; congruence.
    + intros _ _. exists text. split; [|split; [|reflexivity]].
      * rewrite !List.filter_app, (changes_disk_no_write evs Hevs).
        destruct (known_path _ _); reflexivity.
      * rewrite !app_assoc. apply last_snoc.
Qed.

Lemma perform_files this c w path :
  path ≠ Database.filepath this (collection_of c) →
  files (perform this c w).2 !! path = files w !! path.
Proof.
  intros Hne.
  destruct (perform_world this c w) as (evs & n & _ & [[Hw _]|(text & Hrun & _)]).
  - rewrite Hw. reflexivity.
  - rewrite Hrun. simpl. apply lookup_insert_ne. congruence.
Qed.

Lemma stored_files w w' path :
  files w' !! path = files w !! path → stored w' path = stored w path.
Proof. intros H. unfold stored. rewrite H. reflexivity. Qed.

(** X10. An operation on one collection leaves every other collection as
    it is: the file of a collection with another name is not changed, and a
    find on that collection returns after the operation what it would have
    returned before. *)
Theorem operations_leave_other_collections_alone this c w n :
  n ≠ collection_of c →
  let w' := (perform this c w).2 in
  files w' !! Database.filepath this n = files w !! Database.filepath this n
  ∧ stored w' (Database.filepath this n) = stored w (Database.filepath this n)
  ∧ (∀ c', is_find c' = true → collection_of c' = n →
           (perform this c' w').1 = (perform this c' w).1).
Proof.
  intros Hn w'.
  assert (Hfiles : files w' !! Database.filepath this n
                   = files w !! Database.filepath this n).
  { apply perform_files. intros H. apply Hn, (filepath_injective this), H. }
  split; [exact Hfiles|]. split; [apply stored_files, Hfiles|].
  intros c' Hfind <-.
  destruct (validateAlphabetical (collection_of c')) eqn:Hname.
  - destruct (find_run this c' Hfind Hname) as [g Hg].
    rewrite !Hg. simpl. f_equal. apply stored_files, Hfiles.
  - rewrite !(perform_invalid_name this c' _ Hname). reflexivity.
Qed.

Lemma operations_leave_other_collections_alone_witness :
  let w' := (perform db (Delete "users" (VObj [])) family_world).2 in
  stored w' (Database.filepath db "fam") = VArr family_stored
  ∧ (perform db (FindMany "fam" (VObj [])) w').1 = Ok (VArr family_stored).
Proof.
  destruct (operations_leave_other_collections_alone db
              (Delete "users" (VObj [])) family_world "fam")
    as (_ & Hst & Hfind).
  - discriminate.
  - split.
    + rewrite Hst. vm_compute. reflexivity.
    + rewrite (Hfind (FindMany "fam" (VObj [])) eq_refl eq_refl).
      vm_compute. reflexivity.
Defined.

(** ** The directory of the store *)

Lemma constructor_run directory w :
  ∃ w', Database.constructor directory w
        = (Ok {| Database.directory := directory |}, w')
        ∧ known_path w' directory = true
        ∧ files w' = files w.
Proof.
  unfold Database.constructor.
  rewrite (bind_ok _ _ _ _ _ (ensureDirectoryExists_spec directory w)).
  eexists. split; [reflexivity|]. split; [|reflexivity].
  unfold known_path. simpl.
  destruct (files w !! directory); [reflexivity|].
  destruct (bool_decide (directory ∈ dirs w)) eqn:E; simpl.
  - exact E.
  - apply bool_decide_eq_true. apply elem_of_union_l, elem_of_singleton. reflexivity.
Qed.

Lemma perform_in_known_directory this c w :
  Database.directory this ≠ "" → Database.directory this ≠ "/" →
  known_path w (Database.directory this) = true →
  let w' := (perform this c w).2 in
  known_path w' (Database.directory this) = true
  ∧ dirs w' = dirs w
  ∧ List.filter is_mkdir (events w') = List.filter is_mkdir (events w).
Proof.
  intros Hne Hroot Hknown w'. subst w'.
  destruct (perform_world this c w) as (evs & n & Hevs & [[Hw Hcase]|(text & Hrun & Hfind)]).
  - rewrite Hw. split; [exact Hknown|]. split; [reflexivity|].
    simpl. rewrite List.filter_app, (changes_disk_no_mkdir evs Hevs), app_nil_r.
    reflexivity.
  - assert (Hname : validateAlphabetical (collection_of c) = true).
    { destruct (validateAlphabetical (collection_of c)) eqn:E; [reflexivity|].
      rewrite (perform_invalid_name this c w E) in Hrun. discriminate. }
    rewrite Hrun. simpl. unfold writeFile_world.
    rewrite (path_dirname_filepath this _ Hne Hroot Hname).
    change (known_path (set_drawn (add_events w evs) n) (Database.directory this))
      with (known_path w (Database.directory this)).
    rewrite Hknown. simpl. split; [|split; [reflexivity|]].
    + unfold known_path in *. simpl.
      destruct (decide (Database.directory this
                        = Database.filepath this (collection_of c))) as [->|Hd].
      * rewrite lookup_insert_eq. reflexivity.
      * rewrite lookup_insert_ne by congruence. exact Hknown.
    + rewrite !List.filter_app, (changes_disk_no_mkdir evs Hevs). simpl.
      rewrite !app_nil_r. reflexivity.
Qed.

(** X11. The directory of the store is made by the constructor and never
    again: after [new Database(directory)], whatever operations are called
    and whether they return or throw, no directory is made, because the
    directory that [writeFile] asks for is the one the constructor has
    ensured.  ([directory] is neither empty nor the root.) *)
Theorem no_directory_is_made_after_construction directory w cs :
  directory ≠ "" → directory ≠ "/" →
  ∃ this w0,
    Database.constructor directory w = (Ok this, w0)
    ∧ Database.directory this = directory
    ∧ dirs (run_all this cs w0) = dirs w0
    ∧ List.filter is_mkdir (events (run_all this cs w0))
      = List.filter is_mkdir (events w0).
Proof.
  intros Hne Hroot.
  destruct (constructor_run directory w) as (w0 & Hrun & Hknown & _).
  exists {| Database.directory := directory |}, w0.
  split; [exact Hrun|]. split; [reflexivity|].
  clear Hrun. revert w0 Hknown.
  induction cs as [|c cs IH]; intros w0 Hknown; simpl; [split; reflexivity|].
  destruct (perform_in_known_directory {| Database.directory := directory |} c w0
              Hne Hroot Hknown) as (Hknown' & Hdirs & Hmk).
  destruct (IH _ Hknown') as [IHd IHm].
  split; congruence.
Qed.

Lemma no_directory_is_made_after_construction_witness :
  let cs := [InsertOne "users" (VObj [("name", VStr "Alice")]);
             FindMany "users" (VObj []);
             DeleteById "users" (VStr "0b30557a9fc4e90e")] in
  ∃ this w0,
    Database.constructor "data" empty_world = (Ok this, w0)
    ∧ Database.directory this = "data"
    ∧ dirs (run_all this cs w0) = dirs w0
    ∧ List.filter is_mkdir (events (run_all this cs w0))
      = List.filter is_mkdir (events w0).
Proof.
  apply (no_directory_is_made_after_construction "data" empty_world
           [InsertOne "users" (VObj [("name", VStr "Alice")]);
            FindMany "users" (VObj []);
            DeleteById "users" (VStr "0b30557a9fc4e90e")]);
    discriminate.
Defined.

(** ** A collection that has no file yet *)

Lemma read_modify_write_run path change w data' text :
  change (stored w path) = Ok data' →
  JSON_stringify data' = Some text →
  read_modify_write path change w
  = (Ok VUndefined, writeFile_world (add_events w (readFile_events w path)) path text).
Proof.
  intros Hchange Htext. unfold read_modify_write.
  rewrite (bind_ok _ _ _ _ _ (readFile_stored path w)).
  unfold lift, bind at 1. rewrite Hchange.
  rewrite (bind_ok _ _ _ _ _ (writeFile_ok path data' text _ Htext)).
  reflexivity.
Qed.

Lemma stored_missing w path : known_path w path = false → stored w path = VArr [].
Proof.
  unfold known_path, stored. destruct (files w !! path); [discriminate|reflexivity].
Qed.

Lemma files_missing w path : known_path w path = false → files w !! path = None.
Proof. unfold known_path. destruct (files w !! path); [discriminate|reflexivity]. Qed.

(** X12. On a collection that has no file yet, the finds return the empty
    array, or [undefined], and make no file; [delete] and [update], which
    find nothing to change, make the file all the same: it holds the text
    of the empty array afterwards. *)
Theorem operations_on_a_missing_collection this collection w f :
  validateAlphabetical collection = true →
  known_path w (Database.filepath this collection) = false →
  wdata.bad_object f = false →
  (∃ w', Database.findMany this collection f w = (Ok (VArr []), w')
         ∧ files w' !! Database.filepath this collection = None)
  ∧ (∃ w', Database.findOne this collection f w = (Ok VUndefined, w')
           ∧ files w' !! Database.filepath this collection = None)
  ∧ (∃ w', Database.delete this collection f w = (Ok VUndefined, w')
           ∧ files w' !! Database.filepath this collection = Some "[]")
  ∧ (∀ u, wdata.bad_object u = false →
       ∃ w', Database.update this collection f u w = (Ok VUndefined, w')
             ∧ files w' !! Database.filepath this collection = Some "[]").
Proof.
  intros Hname Hknown Hf.
  pose proof (stored_missing w _ Hknown) as Hstored.
  pose proof (files_missing w _ Hknown) as Hfiles.
  split; [|split; [|split]].
  - eexists. split;
      [apply (findMany_run this collection f w [] Hname Hstored eq_refl Hf)|exact Hfiles].
  - eexists. split;
      [apply (findOne_run this collection f w [] Hname Hstored eq_refl Hf)|exact Hfiles].
  - eexists. split.
    + rewrite (delete_read_modify_write this collection f Hname).
      apply (read_modify_write_run _ _ w (VArr []) "[]"); [|reflexivity].
      rewrite Hstored. apply (erase_readable [] f eq_refl Hf).
    + simpl. apply lookup_insert_eq.
  - intros u Hu. eexists. split.
    + rewrite (update_read_modify_write this collection f u Hname).
      apply (read_modify_write_run _ _ w (VArr []) "[]"); [|reflexivity].
      rewrite Hstored. apply (update_readable [] f u eq_refl Hf Hu).
    + simpl. apply lookup_insert_eq.
Qed.

Lemma operations_on_a_missing_collection_witness :
  (∃ w', Database.findMany db "users" (VObj []) family_world = (Ok (VArr []), w')
         ∧ files w' !! Database.filepath db "users" = None)
  ∧ (∃ w', Database.delete db "users" (VObj []) family_world = (Ok VUndefined, w')
           ∧ files w' !! Database.filepath db "users" = Some "[]").
Proof.
  destruct (operations_on_a_missing_collection db "users" family_world (VObj []))
    as (Hfind & _ & Hdel & _).
  - reflexivity.
  - vm_compute. reflexivity.
  - reflexivity.
  - split; [exact Hfind|exact Hdel].
Defined.

(** ** An identifier that no document has *)






(** ** Where the file of a collection lies *)

Lemma no_slash_in s : no_slash s = true → ¬ In "/"%char (list_ascii_of_string s).
Proof.
  unfold no_slash. rewrite all_chars_forallb, forallb_forall. intros H Hin.
  specialize (H _ Hin). discriminate.
Qed.

(** X14. The file of a collection whose name passes the check lies
    directly in the directory of the store: its path is the directory, a
    slash, and a file name without any slash, so that [path.dirname] of it
    is the directory; and two names have the same file only when they are
    the same name.  ([directory] is neither empty nor the root.) *)
Theorem collection_files_lie_in_the_directory this a b :
  Database.directory this ≠ "" → Database.directory this ≠ "/" →
  validateAlphabetical a = true →
  validateAlphabetical b = true →
  (∃ file, Database.filepath this a = Database.directory this +:+ "/" +:+ file
           ∧ file = a +:+ ".json"
           ∧ ¬ In "/"%char (list_ascii_of_string file))
  ∧ path_dirname (Database.filepath this a) = Database.directory this
  ∧ (Database.filepath this a = Database.filepath this b → a = b).
Proof.
  intros Hne Hroot Ha Hb. split; [|split].
  - exists (a +:+ ".json"). split; [reflexivity|]. split; [reflexivity|].
    apply no_slash_in. unfold no_slash. rewrite all_chars_append.
    unfold validateAlphabetical in Ha. destruct a; [discriminate|].
    pose proof (all_alpha_no_slash _ Ha) as H. unfold no_slash in H. rewrite H.
    reflexivity.
  - apply path_dirname_filepath; assumption.
  - apply filepath_injective.
Qed.

Lemma collection_files_lie_in_the_directory_witness :
  path_dirname (Database.filepath db "fam") = "__tests__/database"
  ∧ (Database.filepath db "fam" = Database.filepath db "users" → "fam" = "users").
Proof.
  destruct (collection_files_lie_in_the_directory db "fam" "users") as (_ & Hd & Hi).
  - discriminate.
  - discriminate.
  - reflexivity.
  - reflexivity.
  - split; [exact Hd|exact Hi].
Defined.

(** ** Updating a document, then finding it *)




(** ** Identifiers and the random bytes they are made of *)

Lemma byte_of_hex_of_byte b : byte_of_hex (hex_of_byte b) = Some b.
Proof. destruct b; reflexivity. Qed.

Lemma hex_of_byte_two b : ∃ h l, hex_of_byte b = String h (String l "").
Proof. destruct b; eexists _, _; reflexivity. Qed.

Lemma hex_of_byte_injective a b : hex_of_byte a = hex_of_byte b → a = b.
Proof.
  intros H. apply (f_equal byte_of_hex) in H.
  rewrite !byte_of_hex_of_byte in H. congruence.
Qed.

Lemma hex_string_injective l1 : ∀ l2,
  join "" (List.map hex_of_byte l1) = join "" (List.map hex_of_byte l2) → l1 = l2.
Proof.
  induction l1 as [|a l1 IH]; intros [|b l2] H.
  - reflexivity.
  - change (List.map hex_of_byte (b :: l2))
      with (hex_of_byte b :: List.map hex_of_byte l2) in H.
    rewrite join_empty in H. destruct (hex_of_byte_two b) as (h & l & Hb).
    rewrite Hb in H. discriminate.
  - change (List.map hex_of_byte (a :: l1))
      with (hex_of_byte a :: List.map hex_of_byte l1) in H.
    rewrite join_empty in H. destruct (hex_of_byte_two a) as (h & l & Ha).
    rewrite Ha in H. discriminate.
  - change (List.map hex_of_byte (a :: l1))
      with (hex_of_byte a :: List.map hex_of_byte l1) in H.
    change (List.map hex_of_byte (b :: l2))
      with (hex_of_byte b :: List.map hex_of_byte l2) in H.
    rewrite !join_empty in H.
    destruct (hex_of_byte_two a) as (h & l & Ha).
    destruct (hex_of_byte_two b) as (h' & l' & Hb).
    rewrite Ha, Hb in H. simpl in H. injection H as Hh Hl Hrest.
    f_equal.
    + apply hex_of_byte_injective. rewrite Ha, Hb. congruence.
    + apply IH, Hrest.
Qed.

(** X16. [randomHex(bytes)] returns two lower-case hexadecimal digits for
    each of the [bytes] bytes it takes from the random source, and, thanks
    to the padding of every byte to two digits, tells byte sequences
    apart: two calls return the same string only when they were given the
    same number of bytes with the same values. *)
Theorem randomHex_tells_bytes_apart n1 n2 w1 w2 :
  (randomHex n1 w1).1 = (randomHex n2 w2).1 →
  n1 = n2
  ∧ next_bytes w1 n1 = next_bytes w2 n2
  ∧ ∃ id, randomHex n1 w1 = (Ok id, after_drawing w1 n1)
          ∧ String.length id = 2 * n1
          ∧ all_chars hex_char id = true.
Proof.
  intros H. rewrite !randomHex_spec in H. simpl in H. injection H as H.
  apply hex_string_injective in H.
  assert (Hn : n1 = n2).
  { apply (f_equal (@length _)) in H.
    rewrite !length_map, !length_seq in H. exact H. }
  split; [exact Hn|]. split; [exact H|].
  eexists. split; [apply randomHex_spec|].
  destruct (hex_string_shape (List.map (entropy w1) (seq (drawn w1) n1))) as [Hl Hc].
  rewrite Hl, Hc, length_map, length_seq. split; reflexivity.
Qed.

Lemma randomHex_tells_bytes_apart_witness :
  let later := after_drawing empty_world 256 in
  (randomHex 8 empty_world).1 = Ok "0b30557a9fc4e90e"
  ∧ next_bytes empty_world 8 = next_bytes later 8.
Proof.
  split; [reflexivity|].
  apply (randomHex_tells_bytes_apart 8 8 empty_world (after_drawing empty_world 256)).
  vm_compute. reflexivity.
Defined.

(** ** [filter] and [erase] split an array *)

Lemma filter_split {A} (p : A → bool) l :
  List.filter p l ++ List.filter (fun x => negb (p x)) l ≡ₚ l.
Proof.
  induction l as [|x l IH]; simpl; [reflexivity|].
  destruct (p x); simpl.
  - rewrite IH. reflexivity.
  - rewrite <- Permutation_middle, IH. reflexivity.
Qed.

(** X17. [filter] and [erase] split an array between them: with the same
    criteria, [filter] returns the elements that match and [erase] leaves
    the elements that do not, both in the order of the array, and every
    element of the array is in exactly one of the two.  Erasing from what
    [filter] returned leaves nothing, and filtering what [erase] left
    returns nothing. *)
Theorem filter_and_erase_split_the_array l f :
  forallb readable l = true →
  wdata.bad_object f = false →
  ∃ kept left,
    wdata.filter (VArr l) f = Ok (VArr kept)
    ∧ wdata.erase (VArr l) f = Ok (VArr left)
    ∧ kept ++ left ≡ₚ l
    ∧ sublist kept l ∧ sublist left l
    ∧ Forall (fun d => wdata.matches d f = Ok true) kept
    ∧ Forall (fun d => wdata.matches d f = Ok false) left
    ∧ wdata.erase (VArr kept) f = Ok (VArr [])
    ∧ wdata.filter (VArr left) f = Ok (VArr []).
Proof.
  intros Hl Hf. pose proof (bad_object_readable f Hf) as Hrf.
  exists (List.filter (matchesb f) l), (List.filter (fun d => negb (matchesb f d)) l).
  split; [apply filter_readable; assumption|].
  split; [apply erase_readable; assumption|].
  split; [apply filter_split|].
  split; [apply filter_sublist|]. split; [apply filter_sublist|].
  split; [|split; [|split]].
  - apply List.Forall_forall. intros d Hd. apply filter_In in Hd as [Hd Hm].
    rewrite (matches_matchesb d f (all_readable l d Hl Hd) Hrf), Hm. reflexivity.
  - apply List.Forall_forall. intros d Hd. apply filter_In in Hd as [Hd Hm].
    rewrite (matches_matchesb d f (all_readable l d Hl Hd) Hrf).
    apply negb_true_iff in Hm. rewrite Hm. reflexivity.
  - rewrite (erase_readable _ f (filter_readable_sub _ l Hl) Hf). f_equal. f_equal.
    induction l as [|x l IH]; simpl; [reflexivity|].
    simpl in Hl. apply andb_true_iff in Hl as [_ Hl].
    destruct (matchesb f x) eqn:E; simpl; [rewrite E; simpl|]; apply IH, Hl.
  - rewrite (filter_readable _ f (filter_readable_sub _ l Hl) Hf),
      filter_filter_negb. reflexivity.
Qed.

Lemma filter_and_erase_split_the_array_witness :
  let sons := VObj [("relation", VStr "son")] in
  ∃ kept left,
    wdata.filter (VArr family) sons = Ok (VArr kept)
    ∧ wdata.erase (VArr family) sons = Ok (VArr left)
    ∧ kept ++ left ≡ₚ family
    ∧ List.map (fun d => get_prop d "name") kept = [VStr "Liam"; VStr "Max"]
    ∧ List.map (fun d => get_prop d "name") left
      = [VStr "Alice"; VStr "Ben"; VStr "Olivia"].
Proof.
  destruct (filter_and_erase_split_the_array family (VObj [("relation", VStr "son")]))
    as (kept & left & Hk & Hl & Hperm & _).
  - reflexivity.
  - reflexivity.
  - exists kept, left. split; [exact Hk|]. split; [exact Hl|]. split; [exact Hperm|].
    vm_compute in Hk, Hl. injection Hk as <-. injection Hl as <-.
    split; reflexivity.
Defined.

(** ** Arrays with elements that are not objects *)

Lemma matches_testable d f :
  readable f = true → testable f d = true →
  wdata.matches d f = Ok (matchesb f d).
Proof.
  intros Hf Ht. unfold testable in Ht.
  destruct (readable d) eqn:Hd; [apply matches_matchesb; assumption|].
  simpl in Ht. unfold matchesb, wdata.matches.
  rewrite (Object_keys_readable f Hf). simpl.
  destruct (own_keys f); [reflexivity|discriminate].
Qed.

Lemma matches_not_testable d f :
  readable f = true → testable f d = false →
  ∃ msg, wdata.matches d f = Throw (TypeError msg).
Proof.
  intros Hf Ht. unfold testable in Ht. apply orb_false_iff in Ht as [Hd Hk].
  unfold wdata.matches. rewrite (Object_keys_readable f Hf). simpl.
  destruct (own_keys f) as [|k keys]; [discriminate|]. simpl.
  destruct d; try discriminate; destruct (Array_isArray _); simpl; eauto.
Qed.

Lemma Array_filter_ok (f : value → result bool) l :
  (∃ r, Array_filter f l = Ok r) ↔ ∀ x, In x l → ∃ b, f x = Ok b.
Proof.
  induction l as [|x l IH]; simpl.
  - split; [intros _ x []|eauto].
  - split.
    + intros [r Hr] y [<-|Hy].
      * destruct (f x); [eauto|discriminate].
      * destruct (f x); [|discriminate]. simpl in Hr.
        destruct (Array_filter f l) eqn:E; [|discriminate].
        apply (proj1 IH); eauto.
    + intros H. destruct (H x) as [b ->]; [left; reflexivity|]. simpl.
      destruct (proj2 IH) as [r ->]; [intros y Hy; apply H; right; exact Hy|].
      simpl. eauto.
Qed.

Lemma Array_forEach_ok (f : value → result value) l :
  (∃ r, Array_forEach f l = Ok r) ↔ ∀ x, In x l → ∃ b, f x = Ok b.
Proof.
  induction l as [|x l IH]; simpl.
  - split; [intros _ x []|eauto].
  - split.
    + intros [r Hr] y [<-|Hy].
      * destruct (f x); [eauto|discriminate].
      * destruct (f x); [|discriminate]. simpl in Hr.
        destruct (Array_forEach f l) eqn:E; [|discriminate].
        apply (proj1 IH); eauto.
    + intros H. destruct (H x) as [b ->]; [left; reflexivity|]. simpl.
      destruct (proj2 IH) as [r ->]; [intros y Hy; apply H; right; exact Hy|].
      simpl. eauto.
Qed.

(** The loop of [erase] on elements that can all be tested. *)
Lemma erase_loop_testable f pre : ∀ suf,
  readable f = true →
  forallb (testable f) pre = true →
  wdata.erase_loop (length pre) (pre ++ suf) f
  = Ok (List.filter (fun d => negb (matchesb f d)) pre ++ suf).
Proof.
  induction pre as [|x pre IH] using rev_ind; intros suf Hf Hr; [reflexivity|].
  rewrite forallb_app in Hr. apply andb_true_iff in Hr as [Hpre Hx].
  simpl in Hx. rewrite andb_true_r in Hx.
  rewrite length_app, Nat.add_comm. simpl.
  rewrite <- app_assoc. simpl.
  assert (Hn : nth (length pre) (pre ++ x :: suf) VUndefined = x).
  { rewrite app_nth2 by lia. rewrite Nat.sub_diag. reflexivity. }
  rewrite Hn, (matches_testable x f Hf Hx). simpl.
  rewrite List.filter_app. simpl.
  destruct (matchesb f x); simpl.
  - assert (Hs : splice1 (length pre) (pre ++ x :: suf) = pre ++ suf).
    { unfold splice1. clear. induction pre as [|y pre IHp]; simpl; [reflexivity|].
      simpl in IHp. rewrite IHp. reflexivity. }
    rewrite Hs, (IH suf Hf Hpre), app_nil_r. reflexivity.
  - rewrite (IH (x :: suf) Hf Hpre), <- app_assoc. reflexivity.
Qed.

(** The loop of [erase] throws at the last element that cannot be tested. *)
Lemma erase_loop_throws f pre x post : ∀ suf,
  readable f = true →
  testable f x = false →
  forallb (testable f) post = true →
  ∃ msg, wdata.erase_loop (length (pre ++ x :: post)) ((pre ++ x :: post) ++ suf) f
         = Throw (TypeError msg).
Proof.
  induction post as [|y post IH] using rev_ind; intros suf Hf Hx Hpost.
  - rewrite length_app, Nat.add_comm. simpl. rewrite <- app_assoc. simpl.
    assert (Hn : nth (length pre) (pre ++ x :: suf) VUndefined = x).
    { rewrite app_nth2 by lia. rewrite Nat.sub_diag. reflexivity. }
    rewrite Hn. destruct (matches_not_testable x f Hf Hx) as [msg ->]. eauto.
  - rewrite forallb_app in Hpost. apply andb_true_iff in Hpost as [Hpost Hy].
    simpl in Hy. rewrite andb_true_r in Hy.
    replace (pre ++ x :: post ++ [y]) with ((pre ++ x :: post) ++ [y])
      by (rewrite <- app_assoc; reflexivity).
    rewrite length_app, Nat.add_comm. simpl. rewrite <- app_assoc. simpl.
    assert (Hn : nth (length (pre ++ x :: post)) ((pre ++ x :: post) ++ y :: suf)
                     VUndefined = y).
    { rewrite app_nth2 by lia. rewrite Nat.sub_diag. reflexivity. }
    rewrite Hn, (matches_testable y f Hf Hy). simpl.
    destruct (matchesb f y).
    + assert (Hs : splice1 (length (pre ++ x :: post))
                           ((pre ++ x :: post) ++ y :: suf)
                   = (pre ++ x :: post) ++ suf).
      { unfold splice1. generalize (pre ++ x :: post). clear.
        intros l. induction l as [|z l IHl]; simpl; [reflexivity|].
        simpl in IHl. rewrite IHl. reflexivity. }
      rewrite Hs. apply IH; assumption.
    + apply IH; assumption.
Qed.

(** The last element of a list that fails a test. *)
Lemma last_failing {A} (p : A → bool) l :
  forallb p l = false →
  ∃ pre x post, l = pre ++ x :: post ∧ p x = false ∧ forallb p post = true.
Proof.
  induction l as [|y l IH] using rev_ind; [discriminate|].
  rewrite forallb_app. simpl. rewrite andb_true_r.
  destruct (p y) eqn:Ey.
  - rewrite andb_true_r. intros H.
    destruct (IH H) as (pre & x & post & -> & Hx & Hpost).
    exists pre, x, (post ++ [y]). rewrite <- app_assoc. split; [reflexivity|].
    split; [exact Hx|]. rewrite forallb_app, Hpost. simpl. rewrite Ey. reflexivity.
  - intros _. exists l, y, []. repeat split; assumption.
Qed.

Lemma Object_assign_document d u :
  document_or_nothing d = true →
  (∃ r, Object_assign d u = Ok r) ↔ readable d = true.
Proof.
  destruct d; simpl; intros Hd; try discriminate Hd; split;
    try (intros [r H]; discriminate H); try discriminate; eauto.
Qed.

Lemma filter_testable l f :
  forallb (testable f) l = true → wdata.bad_object f = false →
  wdata.filter (VArr l) f = Ok (VArr (List.filter (matchesb f) l)).
Proof.
  intros Hl Hf. unfold wdata.filter. rewrite Hf.
  rewrite (Array_filter_total (matchesb f)); [reflexivity|].
  intros x Hx. apply matches_testable; [apply bad_object_readable, Hf|].
  rewrite forallb_forall in Hl. apply Hl, Hx.
Qed.

Lemma erase_testable l f :
  forallb (testable f) l = true → wdata.bad_object f = false →
  wdata.erase (VArr l) f
  = Ok (VArr (List.filter (fun d => negb (matchesb f d)) l)).
Proof.
  intros Hl Hf. unfold wdata.erase. rewrite Hf.
  pose proof (erase_loop_testable f l [] (bad_object_readable f Hf) Hl) as H.
  rewrite !app_nil_r in H. rewrite H. reflexivity.
Qed.

(** X18. What a [null] or [undefined] element does to the array functions
    of workflow-data, once their arguments have passed the checks:
    [filter] and [erase] throw exactly when the criteria have a key and the
    array has such an element, and [update], on an array of objects,
    [null]s and [undefined]s, throws exactly when the array has such an
    element, whatever the criteria; what they throw is a [TypeError]. *)
Theorem null_elements_make_the_array_functions_throw l f u :
  wdata.bad_object f = false →
  wdata.bad_object u = false →
  ((∃ r, wdata.filter (VArr l) f = Ok r) ↔ forallb (testable f) l = true)
  ∧ ((∃ r, wdata.erase (VArr l) f = Ok r) ↔ forallb (testable f) l = true)
  ∧ (forallb document_or_nothing l = true →
     ((∃ r, wdata.update (VArr l) f u = Ok r) ↔ forallb readable l = true))
  ∧ only_TypeError (wdata.filter (VArr l) f)
  ∧ only_TypeError (wdata.erase (VArr l) f)
  ∧ only_TypeError (wdata.update (VArr l) f u).
Proof.
  intros Hf Hu. pose proof (bad_object_readable f Hf) as Hrf.
  split; [|split; [|split; [|split; [|split]]]].
  - split.
    + intros [r Hr]. unfold wdata.filter in Hr. rewrite Hf in Hr.
      destruct (Array_filter _ l) as [kept|] eqn:E; [|discriminate].
      pose proof (proj1 (Array_filter_ok _ l) (ex_intro _ kept E)) as Hall.
      rewrite forallb_forall. intros x Hx. destruct (Hall x Hx) as [b Hb].
      destruct (testable f x) eqn:Ht; [reflexivity|].
      destruct (matches_not_testable x f Hrf Ht) as [msg Hmsg]. congruence.
    + intros H. rewrite (filter_testable l f H Hf). eauto.
  - split.
    + intros [r Hr]. destruct (forallb (testable f) l) eqn:E; [reflexivity|].
      destruct (last_failing _ l E) as (pre & x & post & -> & Hx & Hpost).
      destruct (erase_loop_throws f pre x post [] Hrf Hx Hpost) as [msg Hmsg].
      unfold wdata.erase in Hr. rewrite Hf in Hr.
      rewrite app_nil_r in Hmsg. rewrite Hmsg in Hr. discriminate.
    + intros H. rewrite (erase_testable l f H Hf). eauto.
  - intros Hdocs. split.
    + intros [r Hr]. unfold wdata.update in Hr. rewrite Hf, Hu in Hr.
      destruct (Array_forEach _ l) as [l'|] eqn:E; [|discriminate].
      pose proof (proj1 (Array_forEach_ok _ l) (ex_intro _ l' E)) as Hall.
      rewrite forallb_forall. intros x Hx. destruct (Hall x Hx) as [b Hb].
      destruct (readable x) eqn:Hrx; [reflexivity|].
      destruct (testable f x) eqn:Ht.
      * rewrite (matches_testable x f Hrf Ht) in Hb. simpl in Hb.
        assert (Hm : matchesb f x = true).
        { unfold testable in Ht. rewrite Hrx in Ht. simpl in Ht.
          unfold matchesb, wdata.matches. rewrite (Object_keys_readable f Hrf).
          simpl. destruct (own_keys f); [reflexivity|discriminate]. }
        rewrite Hm in Hb. destruct x; discriminate.
      * destruct (matches_not_testable x f Hrf Ht) as [msg Hmsg].
        rewrite Hmsg in Hb. discriminate.
    + intros H. rewrite (update_readable l f u H Hf Hu). eauto.
  - apply filter_only_TypeError.
  - apply erase_only_TypeError.
  - apply update_only_TypeError.
Qed.

Lemma null_elements_make_the_array_functions_throw_witness :
  let l := [VObj [("name", VStr "Liam")]; VNull] in
  (∃ r, wdata.filter (VArr l) (VObj []) = Ok r)
  ∧ ¬ (∃ r, wdata.filter (VArr l) (VObj [("name", VStr "Liam")]) = Ok r)
  ∧ ¬ (∃ r, wdata.update (VArr l) (VObj []) (VObj []) = Ok r).
Proof.
  split; [|split].
  - apply (proj1 (null_elements_make_the_array_functions_throw
                    [VObj [("name", VStr "Liam")]; VNull] (VObj []) (VObj [])
                    eq_refl eq_refl)).
    reflexivity.
  - intros H.
    apply (proj1 (null_elements_make_the_array_functions_throw
                    [VObj [("name", VStr "Liam")]; VNull]
                    (VObj [("name", VStr "Liam")]) (VObj []) eq_refl eq_refl)) in H.
    discriminate H.
  - intros H.
    apply (proj1 (proj2 (proj2 (null_elements_make_the_array_functions_throw
                    [VObj [("name", VStr "Liam")]; VNull] (VObj []) (VObj [])
                    eq_refl eq_refl))) eq_refl) in H.
    discriminate H.
Defined.

(** ** [pluck] and [pluckUnique] *)






(** ** [pivot] *)

Example pivot_hours :
  workflow_data.pivot
    (VArr [VObj [("dept", VStr "ops"); ("month", VStr "jan"); ("hours", VNum 5)];
           VObj [("dept", VStr "dev"); ("month", VStr "jan"); ("hours", VNum 7)];
           VObj [("dept", VStr "ops"); ("month", VStr "feb"); ("hours", VNum 1)];
           VObj [("dept", VStr "ops"); ("month", VStr "jan"); ("hours", VNum 2)]])
    (VStr "dept") (VStr "month") (VStr "hours")
  = Ok (VArr [VObj [("dept", VStr "ops"); ("jan", VNum 7); ("feb", VNum 1)];
              VObj [("dept", VStr "dev"); ("jan", VNum 7)]]).
Proof. reflexivity. Qed.

Section pivot.
Variables rowKey colKey valueKey : string.


Lemma pivot_loop_items items : ∀ idx map,
  forallb (pivot_item valueKey) items = true →
  workflow_data.pivot_loop rowKey colKey valueKey items idx map
  = Ok (fold_left (pivot_step rowKey colKey valueKey) items map).
Proof.
  induction items as [|item items IH]; intros idx map H; simpl; [reflexivity|].
  simpl in H. apply andb_true_iff in H as [Hitem Hitems].
  unfold pivot_item in Hitem.
  apply andb_true_iff in Hitem as [Hitem Hnum].
  apply andb_true_iff in Hitem as [Hobj Hnull].
  rewrite Hobj, Hnum. apply negb_true_iff in Hnull. rewrite Hnull. simpl.
  apply IH, Hitems.
Qed.

Lemma pivot_loop_rejects pre x post : ∀ idx map,
  forallb (pivot_item valueKey) pre = true →
  pivot_item valueKey x = false →
  workflow_data.pivot_loop rowKey colKey valueKey (pre ++ x :: post) idx map
  = Throw (TypeError
             (if negb (String.eqb (typeof x) "object") || is_null x
              then not_an_object (idx + length pre)
              else not_a_number valueKey (idx + length pre))).
Proof.
  induction pre as [|item pre IH]; intros idx map Hpre Hx; simpl.
  - rewrite Nat.add_0_r. unfold pivot_item in Hx.
    destruct (negb (String.eqb (typeof x) "object") || is_null x) eqn:E;
      [reflexivity|].
    apply orb_false_iff in E as [Hobj Hnull]. apply negb_false_iff in Hobj.
    rewrite Hobj, Hnull in Hx. simpl in Hx. rewrite Hx. reflexivity.
  - simpl in Hpre. apply andb_true_iff in Hpre as [Hitem Hpre].
    unfold pivot_item in Hitem.
    apply andb_true_iff in Hitem as [Hitem Hnum].
    apply andb_true_iff in Hitem as [Hobj Hnull].
    rewrite Hobj, Hnum. apply negb_true_iff in Hnull. rewrite Hnull. simpl.
    rewrite (IH (S idx) _ Hpre Hx).
    replace (S idx + length pre) with (idx + S (length pre)) by lia. reflexivity.
Qed.

End pivot.

(** X20. [pivot(data, rowKey, colKey, valueKey)], given an array and three
    strings, returns exactly when every item is a non-null object whose
    [valueKey] is a number; otherwise it throws a [TypeError] about the
    first item that is not, naming its index: that the item is not a valid
    object, or that its value should be a number. *)
Theorem pivot_accepts_objects_with_a_number l rowKey colKey valueKey :
  ((∃ rows, workflow_data.pivot (VArr l) (VStr rowKey) (VStr colKey) (VStr valueKey)
            = Ok rows)
   ↔ forallb (pivot_item valueKey) l = true)
  ∧ (∀ pre x post,
       l = pre ++ x :: post →
       forallb (pivot_item valueKey) pre = true →
       pivot_item valueKey x = false →
       workflow_data.pivot (VArr l) (VStr rowKey) (VStr colKey) (VStr valueKey)
       = Throw (TypeError
                  (if negb (String.eqb (typeof x) "object") || is_null x
                   then not_an_object (length pre)
                   else not_a_number valueKey (length pre)))).
Proof.
  assert (Hthrow : ∀ pre x post,
            l = pre ++ x :: post →
            forallb (pivot_item valueKey) pre = true →
            pivot_item valueKey x = false →
            workflow_data.pivot (VArr l) (VStr rowKey) (VStr colKey) (VStr valueKey)
            = Throw (TypeError
                       (if negb (String.eqb (typeof x) "object") || is_null x
                        then not_an_object (length pre)
                        else not_a_number valueKey (length pre)))).
  { intros pre x post -> Hpre Hx. unfold workflow_data.pivot.
    rewrite (pivot_loop_rejects rowKey colKey valueKey pre x post 0 [] Hpre Hx).
    reflexivity. }
  split; [|exact Hthrow]. split.
  - intros [rows Hrows].
    destruct (forallb (pivot_item valueKey) l) eqn:E; [reflexivity|].
    assert (Hfirst : ∃ pre x post, l = pre ++ x :: post
                       ∧ forallb (pivot_item valueKey) pre = true
                       ∧ pivot_item valueKey x = false).
    { clear -E. induction l as [|y l IH]; [discriminate|]. simpl in E.
      destruct (pivot_item valueKey y) eqn:Ey.
      - destruct (IH E) as (pre & x & post & -> & Hpre & Hx).
        exists (y :: pre), x, post. simpl. rewrite Ey. auto.
      - exists [], y, l. auto. }
    destruct Hfirst as (pre' & x' & post' & Hl' & Hpre' & Hx').
    rewrite (Hthrow pre' x' post' Hl' Hpre' Hx') in Hrows. discriminate.
  - intros H. unfold workflow_data.pivot.
    rewrite (pivot_loop_items rowKey colKey valueKey l 0 [] H). simpl. eauto.
Qed.

Section pivot_sums.
Variables rowKey colKey valueKey : string.


















End pivot_sums.



(** ** JSON files read and written with workflow-data *)







(** ** The checks that the current workflow-data has added *)

Lemma Array_forEach_ext (f g : value → result value) l :
  (∀ x, In x l → f x = g x) → Array_forEach f l = Array_forEach g l.
Proof.
  induction l as [|x l IH]; intros H; simpl; [reflexivity|].
  rewrite (H x) by (left; reflexivity).
  rewrite IH by (intros y Hy; apply H; right; exact Hy). reflexivity.
Qed.

Lemma set_entries_assign obj u :
  is_plain_object obj = true → readable u = true →
  older.set_entries obj u = Object_assign obj u.
Proof.
  destruct obj as [| | | | | | |props]; try discriminate. intros _ Hu.
  unfold older.set_entries. rewrite (Object_keys_readable u Hu). simpl.
  destruct (own_keys u); reflexivity.
Qed.

Lemma older_pivot_loop rowKey colKey valueKey items : ∀ idx map rows,
  workflow_data.pivot_loop rowKey colKey valueKey items idx map = Ok rows →
  older.pivot_loop (VStr rowKey) (VStr colKey) (VStr valueKey) items map = Ok rows.
Proof.
  induction items as [|item items IH]; intros idx map rows; simpl; [auto|].
  destruct (negb (String.eqb (typeof item) "object") || is_null item) eqn:E;
    [discriminate|].
  destruct (negb (String.eqb (typeof (get_prop item valueKey)) "number"));
    [discriminate|].
  assert (Hr : readable item = true) by (destruct item; try discriminate; reflexivity).
  rewrite !(get_readable item _ Hr). simpl. apply IH.
Qed.

(** X24. The argument checks that the current [update] and [pivot] have
    and the older copy lacks only reject: whenever the current function
    returns, the older one returns the same on the same arguments (for
    [update], on an array of plain objects).  The older [pivot] also
    accepts what the current one rejects, and then concatenates: a value
    that is the string [5] makes the cell the string [05]. *)
Theorem checks_only_reject :
  (∀ l f u r,
     forallb is_plain_object l = true →
     wdata.update (VArr l) f u = Ok r → older.update (VArr l) f u = Ok r)
  ∧ (∀ data rowKey colKey valueKey r,
       workflow_data.pivot data rowKey colKey valueKey = Ok r →
       older.pivot data rowKey colKey valueKey = Ok r)
  ∧ (let items := VArr [VObj [("dept", VStr "ops"); ("month", VStr "jan");
                              ("hours", VStr "5")]] in
     older.pivot items (VStr "dept") (VStr "month") (VStr "hours")
     = Ok (VArr [VObj [("dept", VStr "ops"); ("jan", VStr "05")]])
     ∧ workflow_data.pivot items (VStr "dept") (VStr "month") (VStr "hours")
       = Throw (TypeError (not_a_number "hours" 0))).
Proof.
  split; [|split].
  - intros l f u r Hl H. unfold wdata.update in H. unfold older.update.
    destruct (wdata.bad_object f) eqn:Hf; [discriminate|].
    destruct (wdata.bad_object u) eqn:Hu; [discriminate|].
    rewrite <- H. f_equal. apply Array_forEach_ext. intros x Hx.
    cbv beta. unfold wdata.matches.
    destruct (Object_keys f) as [keys|e]; [|reflexivity]. simpl.
    destruct (Array_every _ keys) as [[]|]; simpl; try reflexivity.
    apply set_entries_assign; [|apply bad_object_readable, Hu].
    rewrite forallb_forall in Hl. apply Hl, Hx.
  - intros data rowKey colKey valueKey r H.
    unfold workflow_data.pivot in H. unfold older.pivot.
    destruct data; try discriminate.
    destruct rowKey; try discriminate.
    destruct colKey; try discriminate.
    destruct valueKey; try discriminate.
    destruct (workflow_data.pivot_loop _ _ _ _ _ _) as [rows|] eqn:E; [|discriminate].
    rewrite (older_pivot_loop _ _ _ _ _ _ _ E). exact H.
  - split; reflexivity.
Qed.

(** ** The older [sumProperty] *)






(** ** The check of collection names, then and now *)







(** ** The model at work: the usage scenarios of the documentation *)

(** Inserting a document into a collection that does not exist yet, then
    finding it by a field: the document comes back with a generated [_id]. *)
Example insert_then_findOne :
  let alice := VObj [("name", VStr "Alice")] in
  let run :=
    let! db := Database.constructor "data" in
    let! _ := Database.insertOne db "users" alice in
    Database.findOne db "users" alice in
  (run empty_world).1
  = Ok (VObj [("name", VStr "Alice"); ("_id", VStr "0b30557a9fc4e90e")]).
Proof. vm_compute. reflexivity. Qed.

(** [findMany] returns the two sons, in the order of insertion. *)
Example findMany_sons :
  (Database.findMany db "fam" (VObj [("relation", VStr "son")]) family_world).1
  = Ok (VArr (List.filter
                (fun d => strict_equals (get_prop d "relation") (VStr "son"))
                family_stored))
  ∧ List.map (fun d => get_prop d "name")
      (List.filter (fun d => strict_equals (get_prop d "relation") (VStr "son"))
                   family_stored)
    = [VStr "Liam"; VStr "Max"].
Proof. split; vm_compute; reflexivity. Qed.

(** [updateById] changes the name and keeps the [_id]. *)
Example updateById_then_findById :
  let id := VStr "0b30557a9fc4e90e" in
  let run :=
    let! _ := Database.updateById db "fam" id (VObj [("name", VStr "Alice Smith")]) in
    Database.findById db "fam" id in
  (run family_world).1
  = Ok (VObj [("name", VStr "Alice Smith"); ("age", VNum 35);
              ("relation", VStr "mother"); ("occupation", VStr "Teacher");
              ("_id", id)]).
Proof. vm_compute. reflexivity. Qed.

(** Two insertions in a row: the second one appends to what the first one
    wrote. *)
Example two_insertions :
  let run :=
    let! db := Database.constructor "data" in
    let! _ := Database.insertOne db "users" (VObj [("name", VStr "Bob")]) in
    let! _ := Database.insertOne db "users" (VObj [("name", VStr "Charlie")]) in
    Database.findMany db "users" (VObj []) in
  (run empty_world).1
  = Ok (VArr [VObj [("name", VStr "Bob"); ("_id", VStr "0b30557a9fc4e90e")];
              VObj [("name", VStr "Charlie"); ("_id", VStr "33587da2c7ec1136")]]).
Proof. vm_compute. reflexivity. Qed.

(** [findById] with an identifier that no document has returns
    [undefined]. *)
Example findById_unknown :
  (Database.findById db "fam" (VStr "123abc") family_world).1 = Ok VUndefined.
Proof. vm_compute. reflexivity. Qed.
